(** * bfvos/train.py: triplet pools, training loop and validation loop

    A shallow embedding of [src/bfvos/train.py].  Tensors are shape-carrying
    nested lists, Python exceptions are an error result, and the two loops
    thread an explicit world (model, optimizer, meter, sinks).  The network,
    the loss functions, the optimizer and the meter live outside this file of
    the repository and are the fields of one class. *)

From Stdlib Require Import String DecimalString.
From Stdlib Require Import List ZArith Lia Bool Arith PeanoNat.
Import ListNotations.

Set Implicit Arguments.

(** ** Python exceptions and results *)

Inductive exn : Type :=
| IndexError          (* subscript out of range *)
| RuntimeError        (* torch.cat on mismatching sizes or on an empty list *)
| TypeError           (* unpacking None *)
| ZeroDivisionError.  (* integer modulo by zero *)

Inductive result (A : Type) : Type :=
| Ok (a : A)
| Raise (e : exn).
Arguments Ok {A} a.
Arguments Raise {A} e.

Definition bind {A B : Type} (r : result A) (f : A -> result B) : result B :=
  match r with
  | Ok a => f a
  | Raise e => Raise e
  end.

Declare Scope py_scope.
Delimit Scope py_scope with py.
Notation "x <- c ;; k" := (bind c (fun x => k))
  (at level 61, c at next level, right associativity) : py_scope.
Open Scope py_scope.

Fixpoint mapM {A B : Type} (f : A -> result B) (l : list A) : result (list B) :=
  match l with
  | [] => Ok []
  | a :: l' => b <- f a ;; bs <- mapM f l' ;; Ok (b :: bs)
  end.

(** [xs[i]] on a Python sequence, for a non-negative literal [i]. *)
Definition py_getitem {A : Type} (xs : list A) (i : nat) : result A :=
  match nth_error xs i with
  | Some a => Ok a
  | None => Raise IndexError
  end.

(** ** Tensors *)

Fixpoint map2 {A B C : Type} (f : A -> B -> C) (l1 : list A) (l2 : list B) : list C :=
  match l1, l2 with
  | a :: l1', b :: l2' => f a b :: map2 f l1' l2'
  | _, _ => []
  end.

(** A 2-D tensor of shape [(t2_rows, t2_cols)]. *)
Record tensor2 (A : Type) : Type := T2 {
  t2_rows : nat;
  t2_cols : nat;
  t2_data : list (list A)
}.

(** A 3-D tensor of shape [(t3_d0, t3_d1, t3_d2)]. *)
Record tensor3 (A : Type) : Type := T3 {
  t3_d0 : nat;
  t3_d1 : nat;
  t3_d2 : nat;
  t3_data : list (list (list A))
}.

Section Tensors.
Variable A : Type.

Definition wf_rows (rows cols : nat) (d : list (list A)) : bool :=
  (length d =? rows) && forallb (fun r => length r =? cols) d.

Definition wf2 (t : tensor2 A) : bool :=
  wf_rows (t2_rows t) (t2_cols t) (t2_data t).

Definition wf3 (t : tensor3 A) : bool :=
  (length (t3_data t) =? t3_d0 t)
  && forallb (wf_rows (t3_d1 t) (t3_d2 t)) (t3_data t).

(** [t[i]]: the [i]-th slice along the first axis. *)
Definition t3_select (t : tensor3 A) (i : nat) : result (tensor2 A) :=
  d <- py_getitem (t3_data t) i ;;
  Ok (T2 (t3_d1 t) (t3_d2 t) d).

(** [t[x, y]] on a 2-D tensor. *)
Definition t2_get (t : tensor2 A) (x y : nat) : result A :=
  if (x <? t2_rows t) && (y <? t2_cols t) then
    row <- py_getitem (t2_data t) x ;; py_getitem row y
  else Raise IndexError.

(** [t[:, x, y]]: the vector over the first axis at spatial location
    [(x, y)]. *)
Definition t3_get (t : tensor3 A) (x y : nat) : result (list A) :=
  if (x <? t3_d1 t) && (y <? t3_d2 t) then
    mapM (fun ch => row <- py_getitem ch x ;; py_getitem row y) (t3_data t)
  else Raise IndexError.

(** [torch.cat([a, b], 1)] on 2-D tensors: every size but the one of
    axis 1 has to agree. *)
Definition cat2_dim1 (a b : tensor2 A) : result (tensor2 A) :=
  if t2_rows a =? t2_rows b then
    Ok (T2 (t2_rows a) (t2_cols a + t2_cols b)
           (map2 (@app A) (t2_data a) (t2_data b)))
  else Raise RuntimeError.

(** [torch.cat([a, b], 2)] on 3-D tensors. *)
Definition cat3_dim2 (a b : tensor3 A) : result (tensor3 A) :=
  if (t3_d0 a =? t3_d0 b) && (t3_d1 a =? t3_d1 b) then
    Ok (T3 (t3_d0 a) (t3_d1 a) (t3_d2 a + t3_d2 b)
           (map2 (map2 (@app A)) (t3_data a) (t3_data b)))
  else Raise RuntimeError.

(** A pixel embedding batch: an [n x D] tensor, one row per pixel. *)
Definition batch : Type := list (list A).

(** [torch.cat(rows)] of [1 x D] rows; an empty list of tensors is an
    error. *)
Definition cat_rows (rows : list (list A)) : result batch :=
  match rows with
  | [] => Raise RuntimeError
  | _ :: _ => Ok rows
  end.

(** [torch.cat([e[:, x, y].unsqueeze(0) for x, y in indices])]. *)
Definition gather (e : tensor3 A) (indices : list (nat * nat)) : result batch :=
  rows <- mapM (fun xy => t3_get e (fst xy) (snd xy)) indices ;;
  cat_rows rows.
End Tensors.

(** ** Masks *)

(** Annotation masks are byte tensors; a pixel is foreground when its value
    is not zero. *)
Definition mask : Type := tensor2 Z.

Fixpoint nonzero_row (x y : nat) (row : list Z) : list (nat * nat) :=
  match row with
  | [] => []
  | v :: row' =>
      (if Z.eqb v 0 then [] else [(x, y)]) ++ nonzero_row x (S y) row'
  end.

Fixpoint nonzero_rows (x : nat) (rows : list (list Z)) : list (nat * nat) :=
  match rows with
  | [] => []
  | r :: rows' => nonzero_row x 0 r ++ nonzero_rows (S x) rows'
  end.

(** [torch.nonzero(m)]: the coordinates of the non-zero entries, row-major. *)
Definition nonzero (m : mask) : list (nat * nat) :=
  nonzero_rows 0 (t2_data m).

(** [m == 0]: the element-wise comparison, a byte tensor of the same shape. *)
Definition eq_zero (m : mask) : mask :=
  T2 (t2_rows m) (t2_cols m)
     (map (map (fun v => if Z.eqb v 0 then 1%Z else 0%Z)) (t2_data m)).

(** [indices.numel()] of the [n x 2] index tensor. *)
Definition numel (indices : list (nat * nat)) : nat := 2 * length indices.

(** ** The triplet pool builder *)

Section Pools.
Variable V : Type.       (* embedding scalars *)
Variable image : Type.   (* the frames of a sample *)

Record sample : Type := Sample {
  s_image : image;
  s_annotation : tensor3 Z
}.

Record triplet_pools : Type := Pools {
  fg_embedding_a : batch V;
  fg_positive_pool : batch V;
  fg_negative_pool : batch V;
  bg_embedding_a : batch V;
  bg_positive_pool : batch V;
  bg_negative_pool : batch V
}.

Definition create_triplet_pools (s : sample) (embeddings : list (tensor3 V))
  : result (option triplet_pools) :=
  embedding_a <- py_getitem embeddings 0 ;;
  embedding_f1 <- py_getitem embeddings 1 ;;
  embedding_f2 <- py_getitem embeddings 2 ;;
  embedding_pool_points <- cat3_dim2 embedding_f1 embedding_f2 ;;
  anchor_points <- t3_select (s_annotation s) 0 ;;
  let fg_anchor_indices := nonzero anchor_points in
  let bg_anchor_indices := nonzero (eq_zero anchor_points) in
  if (numel fg_anchor_indices =? 0) || (numel bg_anchor_indices =? 0) then
    Ok None
  else
    annotation_f1 <- t3_select (s_annotation s) 1 ;;
    annotation_f2 <- t3_select (s_annotation s) 2 ;;
    all_pool_points <- cat2_dim1 annotation_f1 annotation_f2 ;;
    let fg_pool_indices := nonzero all_pool_points in
    let bg_pool_indices := nonzero (eq_zero all_pool_points) in
    if (numel fg_pool_indices =? 0) || (numel bg_pool_indices =? 0) then
      Ok None
    else
      fg_embedding_a <- gather embedding_a fg_anchor_indices ;;
      bg_embedding_a <- gather embedding_a bg_anchor_indices ;;
      fg_positive_pool <- gather embedding_pool_points fg_pool_indices ;;
      bg_positive_pool <- gather embedding_pool_points bg_pool_indices ;;
      let fg_negative_pool := bg_positive_pool in
      let bg_negative_pool := fg_positive_pool in
      Ok (Some (Pools fg_embedding_a fg_positive_pool fg_negative_pool
                      bg_embedding_a bg_positive_pool bg_negative_pool)).
End Pools.

(** ** The model object and the external collaborators *)

Inductive device : Type :=
| Cpu
| Cuda (gpu_id : nat).

(** What the loops can observe of the [nn.Module]: its parameters, its
    train/eval flag, where it is placed and whether the feature-extraction
    layers are frozen. *)
Record model_state (P : Type) : Type := Model {
  m_params : P;
  m_training : bool;
  m_device : device;
  m_frozen : bool
}.

Section Module_methods.
Variable P : Type.

Definition nn_eval (m : model_state P) : model_state P :=
  Model (m_params m) false (m_device m) (m_frozen m).

Definition nn_train (m : model_state P) : model_state P :=
  Model (m_params m) true (m_device m) (m_frozen m).

Definition nn_cpu (m : model_state P) : model_state P :=
  Model (m_params m) (m_training m) Cpu (m_frozen m).

Definition nn_to (d : device) (m : model_state P) : model_state P :=
  Model (m_params m) (m_training m) d (m_frozen m).

(** Modelled from the spec: [BFVOSNet.freeze_feature_extraction] of
    [bfvos.model.network] is not part of the sources at hand.  The spec asks
    the embedding field producer to "expose a way to freeze a subset of its
    internal parameters" and calls its use after a save "the same
    frozen-layer policy reapplied": the call marks the feature-extraction
    layers frozen and touches nothing else. *)
Definition freeze_feature_extraction (m : model_state P) : model_state P :=
  Model (m_params m) (m_training m) (m_device m) true.
End Module_methods.

(** The types the collaborators work on: embedding scalars, the frames of a
    sample, the parameters of the network, Python floats, gradients, the
    state of the optimizer and the state of the torchnet meter. *)
Class Domain : Type := {
  scalar : Type;
  image : Type;
  params : Type;
  float : Type;
  grads : Type;
  optim : Type;
  meter : Type
}.

(** The network, the loss functions, the optimizer, the float arithmetic of
    the accumulators and the torchnet meter. *)
Class Collaborators {D : Domain} : Type := {
  (* torch.cuda.is_available() *)
  has_cuda : bool;
  (* model(sample_frames): a batch of three embedding fields *)
  model_call : model_state params -> image -> list (tensor3 scalar);
  (* loss.MinTripletLoss(alpha) and loss.validation_loss, read with .item() *)
  loss_fn : batch scalar -> batch scalar -> batch scalar -> float;
  validation_loss : batch scalar -> batch scalar -> batch scalar -> float;
  (* optimizer.zero_grad(), final_loss.backward(), optimizer.step() *)
  zero_grad : grads -> grads;
  backward : model_state params -> sample image -> grads -> grads;
  optimizer_step : optim -> grads -> params -> optim * params;
  (* [o['lr'] for o in optimizer.param_groups] *)
  param_groups_lr : optim -> list float;
  (* 0., + and / by an int on Python floats *)
  fzero : float;
  fadd : float -> float -> float;
  fdiv : float -> Z -> float;
  (* MovingAverageValueMeter(windowsize) and its value() *)
  meter_new : nat -> meter;
  meter_value : meter -> float * float
}.

(** ** The world of the two loops *)

Inductive log_record {D : Domain} : Type :=
| Debug_skipping (iteration : Z)
| Info_epoch_batch (epoch batch : Z)
| Info_avg_loss (fg bg total : float)
| Info_avg_val_loss (fg bg total : float)
| Info_checkpoint_saved (epoch batch : Z).

Record checkpoint {D : Domain} : Type := Ckpt {
  ckpt_epoch : Z;
  ckpt_batch_id : Z;
  ckpt_state_dict : params
}.

Record world {D : Domain} : Type := World {
  w_model : model_state params;
  w_grads : grads;
  w_optim : optim;
  w_meter : meter;
  (* frames handed to the network, oldest first *)
  w_calls : list image;
  (* records handed to the logger, oldest first *)
  w_log : list log_record;
  (* summary_writer.add_scalar(tag, value, step), oldest first *)
  w_scalars : list (string * float * Z);
  (* torch.save(model.state_dict(), ckpt_path), oldest first *)
  w_ckpts : list checkpoint
}.

Arguments Ckpt {D} ckpt_epoch ckpt_batch_id ckpt_state_dict.
Arguments World {D} w_model w_grads w_optim w_meter w_calls w_log w_scalars w_ckpts.

Section Programs.
Context {D : Domain}.

Definition prog (A : Type) : Type := world -> world * result A.

Definition ret {A : Type} (a : A) : prog A := fun w => (w, Ok a).

Definition bindp {A B : Type} (m : prog A) (f : A -> prog B) : prog B :=
  fun w =>
    match m w with
    | (w', Ok a) => f a w'
    | (w', Raise e) => (w', Raise e)
    end.

Definition lift {A : Type} (r : result A) : prog A := fun w => (w, r).

Definition modify (f : world -> world) : prog unit := fun w => (f w, Ok tt).

Definition when (b : bool) (m : prog unit) : prog unit :=
  if b then m else ret tt.

Definition set_model (m : model_state params) (w : world) : world :=
  World m (w_grads w) (w_optim w) (w_meter w) (w_calls w) (w_log w)
        (w_scalars w) (w_ckpts w).

Definition set_grads (g : grads) (w : world) : world :=
  World (w_model w) g (w_optim w) (w_meter w) (w_calls w) (w_log w)
        (w_scalars w) (w_ckpts w).

Definition set_optim (o : optim) (w : world) : world :=
  World (w_model w) (w_grads w) o (w_meter w) (w_calls w) (w_log w)
        (w_scalars w) (w_ckpts w).

Definition add_call (i : image) (w : world) : world :=
  World (w_model w) (w_grads w) (w_optim w) (w_meter w) (w_calls w ++ [i])
        (w_log w) (w_scalars w) (w_ckpts w).

Definition add_log (r : log_record) (w : world) : world :=
  World (w_model w) (w_grads w) (w_optim w) (w_meter w) (w_calls w)
        (w_log w ++ [r]) (w_scalars w) (w_ckpts w).

Definition add_scalars (l : list (string * float * Z)) (w : world) : world :=
  World (w_model w) (w_grads w) (w_optim w) (w_meter w) (w_calls w) (w_log w)
        (w_scalars w ++ l) (w_ckpts w).

Definition add_ckpt (c : checkpoint) (w : world) : world :=
  World (w_model w) (w_grads w) (w_optim w) (w_meter w) (w_calls w) (w_log w)
        (w_scalars w) (w_ckpts w ++ [c]).
End Programs.

Notation "x <~ c ;; k" := (bindp c (fun x => k))
  (at level 61, c at next level, right associativity) : py_scope.
Notation "c ;;> k" := (bindp c (fun _ => k))
  (at level 61, right associativity) : py_scope.

(** ** The training and validation loops *)

(** [a % b] on Python ints: the sign follows the divisor, as with [Z.modulo];
    a zero divisor raises. *)
Definition py_mod (a b : Z) : result Z :=
  if Z.eqb b 0 then Raise ZeroDivisionError else Ok (Z.modulo a b).

(** [str(i)] of a non-negative int. *)
Definition str_of_nat (i : nat) : string :=
  NilEmpty.string_of_uint (Nat.to_uint i).

Fixpoint enumerate_from {A : Type} (i : nat) (l : list A) : list (nat * A) :=
  match l with
  | [] => []
  | a :: l' => (i, a) :: enumerate_from (S i) l'
  end.

(** How a [for] loop was left. *)
Inductive loop_exit : Type :=
| Exhausted   (* the data loader ran out *)
| Broke.      (* a [break] was executed *)

Section Loops.
Context {D : Domain} {C : Collaborators}.

(** [device = torch.device("cuda:0" if has_cuda else "cpu")] *)
Definition the_device : device := if has_cuda then Cuda 0 else Cpu.

(** [embeddings = model(sample_frames)] *)
Definition call_model (frames : image) : prog (list (tensor3 scalar)) :=
  fun w => (add_call frames w, Ok (model_call (w_model w) frames)).

Definition on_model (f : model_state params -> model_state params) : prog unit :=
  modify (fun w => set_model (f (w_model w)) w).

(** Lines 218-220: zero the gradients, backpropagate [final_loss], step. *)
Definition backpropagation (s : sample image) : prog unit :=
  modify (fun w => set_grads (zero_grad (w_grads w)) w) ;;>
  modify (fun w => set_grads (backward (w_model w) s (w_grads w)) w) ;;>
  modify (fun w =>
            let (o, p) := optimizer_step (w_optim w) (w_grads w)
                                         (m_params (w_model w)) in
            let m := w_model w in
            set_optim o
              (set_model (Model p (m_training m) (m_device m) (m_frozen m)) w)).

(** Lines 227-234: the periodic log of the training loop. *)
Definition train_logging (epoch idx : nat) (agg_fg_loss agg_bg_loss : float)
  : prog unit :=
  let step := (Z.of_nat idx + 1)%Z in
  modify (add_log (Info_epoch_batch (Z.of_nat epoch + 1)%Z step)) ;;>
  modify (add_log (Info_avg_loss (fdiv agg_fg_loss step)
                                 (fdiv agg_bg_loss step)
                                 (fdiv (fadd agg_fg_loss agg_bg_loss) step))) ;;>
  modify (fun w =>
            add_scalars [("train_loss"%string, fst (meter_value (w_meter w)), step)] w) ;;>
  modify (fun w =>
            add_scalars
              (map (fun io => (append "train_lr_group" (str_of_nat (fst io)),
                               snd io, step))
                   (enumerate_from 0 (param_groups_lr (w_optim w)))) w).

(** Lines 242-248: save a checkpoint from the evaluation-mode model on the
    CPU, then put the model back. *)
Definition checkpoint_step (epoch idx : nat) : prog unit :=
  on_model (fun m => nn_cpu (nn_eval m)) ;;>
  modify (fun w => add_ckpt (Ckpt (Z.of_nat epoch + 1)%Z (Z.of_nat idx + 1)
                                  (m_params (w_model w))) w) ;;>
  modify (add_log (Info_checkpoint_saved (Z.of_nat epoch + 1)%Z (Z.of_nat idx + 1)%Z)) ;;>
  on_model (fun m => nn_train (nn_to the_device m)) ;;>
  on_model (@freeze_feature_extraction params).

(** One pass through the body of the [for] of [train]; the pair is
    [(agg_fg_loss, agg_bg_loss)].  Moving the sample to the device (lines
    197-200) changes no value and is left out. *)
Definition train_iteration (epoch : nat) (log_interval checkpoint_interval : Z)
           (idx : nat) (s : sample image) (agg : float * float)
  : prog (float * float) :=
  embeddings <~ call_model (s_image s) ;;
  triplet_pools <~ lift (create_triplet_pools s embeddings) ;;
  match triplet_pools with
  | None =>
      modify (add_log (Debug_skipping (Z.of_nat idx + 1)%Z)) ;;>
      ret agg                                                  (* continue *)
  | Some p =>
      let fg_loss := loss_fn (fg_embedding_a p) (fg_positive_pool p) (fg_negative_pool p) in
      let bg_loss := loss_fn (bg_embedding_a p) (bg_positive_pool p) (bg_negative_pool p) in
      backpropagation s ;;>
      let agg_fg_loss := fadd (fst agg) fg_loss in
      let agg_bg_loss := fadd (snd agg) bg_loss in
      r <~ lift (py_mod (Z.of_nat idx + 1)%Z log_interval) ;;
      when (Z.eqb r 0) (train_logging epoch idx agg_fg_loss agg_bg_loss) ;;>
      r' <~ lift (py_mod (Z.of_nat idx + 1)%Z checkpoint_interval) ;;
      when (Z.eqb r' 0) (checkpoint_step epoch idx) ;;>
      ret (agg_fg_loss, agg_bg_loss)
  end.

(** [for idx, sample in enumerate(data_loader)] of [train], from [idx] on. *)
Fixpoint train_loop (epoch : nat) (log_interval checkpoint_interval : Z)
         (idx : nat) (data_loader : list (sample image)) (agg : float * float)
  : prog (float * float) :=
  match data_loader with
  | [] => ret agg
  | s :: rest =>
      agg' <~ train_iteration epoch log_interval checkpoint_interval idx s agg ;;
      train_loop epoch log_interval checkpoint_interval (S idx) rest agg'
  end.

Definition train (epoch : nat) (data_loader : list (sample image))
           (log_interval checkpoint_interval : Z) : prog unit :=
  train_loop epoch log_interval checkpoint_interval 0 data_loader (fzero, fzero) ;;>
  ret tt.

(** Lines 275-282: the log of the validation loop. *)
Definition validate_logging (epoch idx : nat) (agg_fg_loss agg_bg_loss : float)
  : prog unit :=
  let step := (Z.of_nat idx + 1)%Z in
  modify (add_log (Info_epoch_batch (Z.of_nat epoch + 1)%Z step)) ;;>
  modify (add_log (Info_avg_val_loss (fdiv agg_fg_loss step)
                                     (fdiv agg_bg_loss step)
                                     (fdiv (fadd agg_fg_loss agg_bg_loss) step))) ;;>
  modify (fun w =>
            add_scalars [("val_loss"%string, fst (meter_value (w_meter w)), step)] w).

(** One pass through the body of the [for] of [validate]: the updated
    accumulators and whether the pass ended in [break]. *)
Definition validate_iteration (epoch : nat) (log_interval : Z)
           (num_val_samples_to_evaluate : Z)
           (idx : nat) (s : sample image) (agg : float * float)
  : prog (float * float * bool) :=
  embeddings <~ call_model (s_image s) ;;
  triplet_pools <~ lift (create_triplet_pools s embeddings) ;;
  p <~ lift (match triplet_pools with
             | Some p => Ok p
             | None => Raise TypeError      (* unpacking None into six names *)
             end) ;;
  let fg_loss := validation_loss (fg_embedding_a p) (fg_positive_pool p) (fg_negative_pool p) in
  let bg_loss := validation_loss (bg_embedding_a p) (bg_positive_pool p) (bg_negative_pool p) in
  let agg_fg_loss := fadd (fst agg) fg_loss in
  let agg_bg_loss := fadd (snd agg) bg_loss in
  r <~ lift (py_mod (Z.of_nat idx + 1)%Z log_interval) ;;
  when (Z.eqb r 0 || Z.eqb (Z.of_nat idx) num_val_samples_to_evaluate)
       (validate_logging epoch idx agg_fg_loss agg_bg_loss) ;;>
  ret (agg_fg_loss, agg_bg_loss, Z.eqb (Z.of_nat idx) num_val_samples_to_evaluate).

(** [for idx, sample in enumerate(data_loader)] of [validate], from [idx]
    on. *)
Fixpoint validate_loop (epoch : nat) (log_interval : Z)
         (num_val_samples_to_evaluate : Z)
         (idx : nat) (data_loader : list (sample image)) (agg : float * float)
  : prog loop_exit :=
  match data_loader with
  | [] => ret Exhausted
  | s :: rest =>
      r <~ validate_iteration epoch log_interval num_val_samples_to_evaluate idx s agg ;;
      if snd r then ret Broke
      else validate_loop epoch log_interval num_val_samples_to_evaluate
                         (S idx) rest (fst r)
  end.

(** [validate]; gradient tracking is switched off for the whole loop, which
    no value here depends on.  Python returns [None]; the embedding returns
    how the loop was left. *)
Definition validate (epoch : nat) (data_loader : list (sample image))
           (log_interval : Z) (num_val_samples_to_evaluate : Z)
  : prog loop_exit :=
  on_model (@nn_eval params) ;;>
  validate_loop epoch log_interval num_val_samples_to_evaluate 0 data_loader
                (fzero, fzero).

(** The default of the keyword argument of [validate]. *)
Definition default_num_val_samples_to_evaluate : Z := (-1)%Z.

(** Lines 120-125 of [main]: one [train] and one [validate] per epoch; the
    data loaders are given by what they yield in each epoch. *)
Fixpoint main_epochs (epoch : nat)
         (epochs : list (list (sample image) * list (sample image)))
         (log_interval checkpoint_interval num_val_samples : Z) : prog unit :=
  match epochs with
  | [] => ret tt
  | (train_data, val_data) :: rest =>
      train epoch train_data log_interval checkpoint_interval ;;>
      validate epoch val_data log_interval num_val_samples ;;>
      main_epochs (S epoch) rest log_interval checkpoint_interval num_val_samples
  end.

(** Lines 91-117 of [main]: the model with the pre-trained weights on the
    device, in training mode, feature extraction frozen; a fresh meter of
    window 20; nothing logged yet. *)
Definition initial_world (pretrained : params) (g : grads) (o : optim) : world :=
  World (freeze_feature_extraction
           (nn_train (nn_to the_device (Model pretrained true Cpu false))))
        g o (meter_new 20) [] [] [] [].
End Loops.

(** ** Vocabulary of the properties *)

(** [wf_rows] as a proposition. *)
Definition rows_ok {A : Type} (rows cols : nat) (d : list (list A)) : Prop :=
  length d = rows /\ Forall (fun r => length r = cols) d.

(** The pixels of a mask, row by row. *)
Definition pixels (m : mask) : list Z := concat (t2_data m).

Definition count_pixels (f : Z -> bool) (m : mask) : nat :=
  length (filter f (pixels m)).

(** Foreground is what [torch.nonzero] finds, background what [== 0] finds. *)
Definition is_foreground (v : Z) : bool := negb (Z.eqb v 0).
Definition is_background (v : Z) : bool := Z.eqb v 0.

(** Pixels holding the value [k]. *)
Definition has_value (k v : Z) : bool := Z.eqb v k.

(** A binary mask holds only 0 and 1. *)
Definition binary_mask (m : mask) : bool :=
  forallb (fun v => Z.eqb v 0 || Z.eqb v 1) (pixels m).

(** The mask of frame [i] of an annotation tensor of shape [(3, H, W)]. *)
Definition frame (annotation : tensor3 Z) (i : nat) : mask :=
  T2 (t3_d1 annotation) (t3_d2 annotation) (nth i (t3_data annotation) []).

Definition wf_annotation (annotation : tensor3 Z) : bool :=
  wf3 annotation && (t3_d0 annotation =? 3).

Definition same_shape3 {A : Type} (a b : tensor3 A) : bool :=
  (t3_d0 a =? t3_d0 b) && (t3_d1 a =? t3_d1 b) && (t3_d2 a =? t3_d2 b).

(** The output of the network on a triplet: three embedding fields of one
    shape [(D, H', W')]. *)
Definition wf_embeddings {A : Type} (embeddings : list (tensor3 A)) : bool :=
  match embeddings with
  | [a; f1; f2] =>
      wf3 a && wf3 f1 && wf3 f2 && same_shape3 a f1 && same_shape3 a f2
  | _ => false
  end.

(** Every mask coordinate is a coordinate of the embedding fields. *)
Definition masks_fit {A : Type} (annotation : tensor3 Z)
           (embeddings : list (tensor3 A)) : bool :=
  forallb (fun e => (t3_d1 annotation <=? t3_d1 e) && (t3_d2 annotation <=? t3_d2 e))
          embeddings.

(** The sizes of the four index sets, counted on the masks themselves. *)
Definition fg_anchor_size (annotation : tensor3 Z) : nat :=
  count_pixels is_foreground (frame annotation 0).
Definition bg_anchor_size (annotation : tensor3 Z) : nat :=
  count_pixels is_background (frame annotation 0).
Definition fg_pool_size (annotation : tensor3 Z) : nat :=
  count_pixels is_foreground (frame annotation 1)
  + count_pixels is_foreground (frame annotation 2).
Definition bg_pool_size (annotation : tensor3 Z) : nat :=
  count_pixels is_background (frame annotation 1)
  + count_pixels is_background (frame annotation 2).

(** A degenerate sample: one of the four index sets is empty. *)
Definition degenerate (annotation : tensor3 Z) : bool :=
  (fg_anchor_size annotation =? 0) || (bg_anchor_size annotation =? 0)
  || (fg_pool_size annotation =? 0) || (bg_pool_size annotation =? 0).

(** A valid input of the pool builder: well-shaped masks and embedding
    fields, masks no larger than the fields, no index set empty. *)
Definition valid_input {A I : Type} (s : sample I) (embeddings : list (tensor3 A)) : bool :=
  wf_annotation (s_annotation s) && wf_embeddings embeddings
  && masks_fit (s_annotation s) embeddings
  && negb (degenerate (s_annotation s)).


(** The builder hands back pools for the sample, on the embeddings the model
    [m] computes for it. *)
Definition yields_pools {D : Domain} {C : Collaborators}
           (m : model_state params) (s : sample image) : Prop :=
  exists p, create_triplet_pools s (model_call m (s_image s)) = Ok (Some p).

(** The values written to the summary writer under a tag. *)
Definition scalars_tagged {D : Domain} (tag : string) (w : world) : list float :=
  map (fun e => snd (fst e))
      (filter (fun e => String.eqb (fst (fst e)) tag) (w_scalars w)).

(** The two tags the meter is written under. *)
Definition loss_tag (tag : string) : bool :=
  String.eqb tag "train_loss" || String.eqb tag "val_loss".

(** An entry of the summary writer that, when it carries a loss tag, holds
    what the meter [m0] reports. *)
Definition meter_entry_ok {D : Domain} {C : Collaborators} (m0 : meter)
           (e : string * float * Z) : Prop :=
  loss_tag (fst (fst e)) = true -> snd (fst e) = fst (meter_value m0).

(** The meter of the world is still [m0] and every entry written after
    [base] reports [m0]. *)
Definition meter_untouched {D : Domain} {C : Collaborators} (m0 : meter)
           (base : list (string * float * Z)) (w : world) : Prop :=
  w_meter w = m0
  /\ exists new, w_scalars w = base ++ new /\ Forall (meter_entry_ok m0) new.

(** A program keeps a property of the world, also when it raises. *)
Definition preserves {D : Domain} {A : Type} (P : world -> Prop) (m : prog A) : Prop :=
  forall w, P w -> P (fst (m w)).

(** The same collaborators with other loss functions. *)
Definition with_losses {D : Domain} (C : Collaborators)
           (l v : batch scalar -> batch scalar -> batch scalar -> float)
  : Collaborators :=
  {| has_cuda := @has_cuda D C;
     model_call := @model_call D C;
     loss_fn := l;
     validation_loss := v;
     zero_grad := @zero_grad D C;
     backward := @backward D C;
     optimizer_step := @optimizer_step D C;
     param_groups_lr := @param_groups_lr D C;
     fzero := @fzero D C;
     fadd := @fadd D C;
     fdiv := @fdiv D C;
     meter_new := @meter_new D C;
     meter_value := @meter_value D C |}.

(** ** Vocabulary of the further properties *)

(** Masks and embedding fields of one resolution. *)
Definition same_resolution {A : Type} (annotation : tensor3 Z)
           (embeddings : list (tensor3 A)) : bool :=
  forallb (fun e => (t3_d1 annotation =? t3_d1 e) && (t3_d2 annotation =? t3_d2 e))
          embeddings.

(** [row] is the embedding vector of [field] at a pixel where [m] holds a
    value of the class [f]. *)
Definition embeds_pixel {A : Type} (f : Z -> bool) (m : mask) (field : tensor3 A)
           (row : list A) : Prop :=
  exists x y v,
    t2_get m x y = Ok v /\ f v = true /\ t3_get field x y = Ok row.

(** The builder raises nothing on the sample, whatever the state of the
    model. *)
Definition builder_returns {D : Domain} {C : Collaborators} (s : sample image) : Prop :=
  forall m, exists r, create_triplet_pools s (model_call m (s_image s)) = Ok r.

(** A checkpoint written in [epoch] at a batch id in [(lo, hi]] that the
    checkpoint interval divides. *)
Definition checkpoint_on_cadence {D : Domain} (epoch : nat) (checkpoint_interval : Z)
           (lo hi : nat) (c : checkpoint) : Prop :=
  ckpt_epoch c = (Z.of_nat epoch + 1)%Z
  /\ (Z.of_nat lo < ckpt_batch_id c <= Z.of_nat hi)%Z
  /\ (ckpt_batch_id c mod checkpoint_interval = 0)%Z.

(** What the validation loop has no business changing. *)
Definition validation_frame {D : Domain} (w0 w : world) : Prop :=
  m_params (w_model w) = m_params (w_model w0)
  /\ m_device (w_model w) = m_device (w_model w0)
  /\ m_frozen (w_model w) = m_frozen (w_model w0)
  /\ m_training (w_model w) = false
  /\ w_grads w = w_grads w0
  /\ w_optim w = w_optim w0
  /\ w_meter w = w_meter w0
  /\ w_ckpts w = w_ckpts w0.

(** ** A small instance to run the definitions on *)

Module Toy.
(** Frames are given by their embedding fields at unit parameters; the toy
    network scales them by its single parameter. *)
#[export] Instance domain : Domain :=
  {| scalar := Z; image := list (tensor3 Z); params := Z; float := Z;
     grads := Z; optim := Z; meter := list Z |}.

Definition scale (k : Z) (t : tensor3 Z) : tensor3 Z :=
  T3 (t3_d0 t) (t3_d1 t) (t3_d2 t) (map (map (map (Z.mul k))) (t3_data t)).

Definition total (b : batch Z) : Z := fold_right Z.add 0%Z (concat b).

#[export] Instance collaborators : Collaborators :=
  {| has_cuda := false;
     model_call := fun m frames => map (scale (m_params m)) frames;
     loss_fn := fun a p n => (total a + total p - total n)%Z;
     validation_loss := fun a p n => (total a - total p + total n)%Z;
     zero_grad := fun _ => 0%Z;
     backward := fun m _ g => (g + m_params m)%Z;
     optimizer_step := fun o g p => ((o + 1)%Z, (p - g)%Z);
     param_groups_lr := fun o => [o; (2 * o)%Z];
     fzero := 0%Z;
     fadd := Z.add;
     fdiv := Z.div;
     meter_new := fun _ => [];
     meter_value := fun l => (fold_right Z.add 0%Z l, 0%Z) |}.

(** Two channels on a 2 x 2 grid. *)
Definition field (k : Z) : tensor3 Z :=
  T3 2 2 2 [ [[k; k + 1]; [k + 2; k + 3]];
             [[10 * k; 10 * k + 1]; [10 * k + 2; 10 * k + 3]] ]%Z.

Definition frames : list (tensor3 Z) := [field 1; field 2; field 3].

(** Anchor with one foreground pixel; both classes present in the pool. *)
Definition good_sample : sample (list (tensor3 Z)) :=
  Sample frames
         (T3 3 2 2 [ [[1; 0]; [0; 0]];
                     [[0; 1]; [0; 0]];
                     [[0; 0]; [1; 1]] ]%Z).

(** The anchor mask lost its foreground. *)
Definition empty_anchor_sample : sample (list (tensor3 Z)) :=
  Sample frames
         (T3 3 2 2 [ [[0; 0]; [0; 0]];
                     [[0; 1]; [0; 0]];
                     [[0; 0]; [1; 1]] ]%Z).

(** The pool masks are all foreground. *)
Definition full_pool_sample : sample (list (tensor3 Z)) :=
  Sample frames
         (T3 3 2 2 [ [[1; 0]; [0; 0]];
                     [[1; 1]; [1; 1]];
                     [[1; 1]; [1; 1]] ]%Z).

Definition world0 : world := initial_world 1%Z 0%Z 0%Z.

(** One channel on a 1 x 1 grid: smaller than the 2 x 2 masks. *)
Definition small_field (k : Z) : tensor3 Z := T3 1 1 1 [ [[k]] ].

(** Fields of two channels and of one channel: they cannot be joined. *)
Definition ragged_frames : list (tensor3 Z) := [field 1; field 2; small_field 3].

(** Well-shaped fields that are smaller than the 2 x 2 masks. *)
Definition small_frames : list (tensor3 Z) :=
  [small_field 1; small_field 2; small_field 3].
End Toy.

(** * Properties *)

(** ** Results and sequences *)

Lemma bind_Ok {A B : Type} (r : result A) (f : A -> result B) (b : B) :
  bind r f = Ok b -> exists a, r = Ok a /\ f a = Ok b.
Proof.
  destruct r as [a|e]; simpl; intros H; [eauto | discriminate].
Qed.

Lemma py_getitem_lt {A : Type} (xs : list A) (i : nat) :
  i < length xs -> exists a, py_getitem xs i = Ok a /\ nth_error xs i = Some a.
Proof.
  intros H. unfold py_getitem.
  destruct (nth_error xs i) as [a|] eqn:E; [eauto|].
  apply nth_error_None in E. lia.
Qed.

Lemma py_getitem_ge {A : Type} (xs : list A) (i : nat) :
  length xs <= i -> py_getitem xs i = Raise IndexError.
Proof.
  intros H. unfold py_getitem.
  apply nth_error_None in H. now rewrite H.
Qed.

Lemma py_getitem_nth {A : Type} (xs : list A) (i : nat) (d : A) :
  i < length xs -> py_getitem xs i = Ok (nth i xs d).
Proof.
  intros H. unfold py_getitem. now rewrite (nth_error_nth' xs d H).
Qed.

Lemma py_getitem_app {A : Type} (l1 l2 : list A) (y : nat) :
  py_getitem (l1 ++ l2) y =
  if y <? length l1 then py_getitem l1 y else py_getitem l2 (y - length l1).
Proof.
  unfold py_getitem. destruct (Nat.ltb_spec y (length l1)).
  - now rewrite nth_error_app1.
  - now rewrite nth_error_app2.
Qed.

Lemma map2_length {A B C : Type} (f : A -> B -> C) (l1 : list A) (l2 : list B) :
  length l1 = length l2 -> length (map2 f l1 l2) = length l1.
Proof.
  revert l2. induction l1 as [|a l1 IH]; intros [|b l2]; simpl; intros H;
    try discriminate; auto.
Qed.

Lemma nth_error_map2 {A B C : Type} (f : A -> B -> C) (l1 : list A) (l2 : list B)
      (x : nat) (a : A) (b : B) :
  nth_error l1 x = Some a -> nth_error l2 x = Some b ->
  nth_error (map2 f l1 l2) x = Some (f a b).
Proof.
  revert l2 x. induction l1 as [|a1 l1 IH]; intros [|b1 l2] [|x]; simpl;
    intros H1 H2; try discriminate; auto.
  now inversion H1; inversion H2.
Qed.

Lemma mapM_length {A B : Type} (f : A -> result B) (l : list A) (bs : list B) :
  mapM f l = Ok bs -> length bs = length l.
Proof.
  revert bs. induction l as [|a l IH]; simpl; intros bs H.
  - now inversion H.
  - apply bind_Ok in H. destruct H as (b & _ & H).
    apply bind_Ok in H. destruct H as (bs' & Hbs & H).
    inversion H; subst. simpl. f_equal. auto.
Qed.

Lemma mapM_Forall_Ok {A B : Type} (f : A -> result B) (l : list A) :
  Forall (fun a => exists b, f a = Ok b) l -> exists bs, mapM f l = Ok bs.
Proof.
  induction 1 as [|a l (b & Hb) _ (bs & Hbs)]; simpl.
  - eauto.
  - rewrite Hb, Hbs. simpl. eauto.
Qed.

(** Mapping over a channel-wise concatenation is mapping over one of the two
    operands when the element function cannot tell the difference. *)
Lemma mapM_map2_l {A B : Type} (P Q : A -> Prop) (g : A -> A -> A)
      (f f1 : A -> result B) (l1 l2 : list A) :
  length l1 = length l2 -> Forall P l1 -> Forall Q l2 ->
  (forall a b, P a -> Q b -> f (g a b) = f1 a) ->
  mapM f (map2 g l1 l2) = mapM f1 l1.
Proof.
  intros Hlen HP HQ Hf. revert l2 Hlen HQ.
  induction HP as [|a l1 Ha _ IH]; intros [|b l2] Hlen HQ; simpl in *;
    try discriminate; auto.
  inversion HQ; subst. rewrite (Hf a b) by assumption.
  rewrite (IH l2) by (auto; lia). reflexivity.
Qed.

Lemma mapM_map2_r {A B : Type} (P Q : A -> Prop) (g : A -> A -> A)
      (f f2 : A -> result B) (l1 l2 : list A) :
  length l1 = length l2 -> Forall P l1 -> Forall Q l2 ->
  (forall a b, P a -> Q b -> f (g a b) = f2 b) ->
  mapM f (map2 g l1 l2) = mapM f2 l2.
Proof.
  intros Hlen HP HQ Hf. revert l2 Hlen HQ.
  induction HP as [|a l1 Ha _ IH]; intros [|b l2] Hlen HQ; simpl in *;
    try discriminate; auto.
  inversion HQ; subst. rewrite (Hf a b) by assumption.
  rewrite (IH l2) by (auto; lia). reflexivity.
Qed.

(** ** Well-formed tensors *)

Section Tensor_facts.
Variable A : Type.

Lemma wf_rows_iff (rows cols : nat) (d : list (list A)) :
  wf_rows rows cols d = true <-> rows_ok rows cols d.
Proof.
  unfold wf_rows, rows_ok.
  rewrite andb_true_iff, Nat.eqb_eq, forallb_forall, Forall_forall.
  split; intros [H1 H2]; split; auto; intros r Hr.
  - apply Nat.eqb_eq; auto.
  - apply Nat.eqb_eq; auto.
Qed.

Lemma wf3_iff (t : tensor3 A) :
  wf3 t = true <->
  length (t3_data t) = t3_d0 t /\ Forall (rows_ok (t3_d1 t) (t3_d2 t)) (t3_data t).
Proof.
  unfold wf3.
  rewrite andb_true_iff, Nat.eqb_eq, forallb_forall, Forall_forall.
  split; intros [H1 H2]; split; auto; intros r Hr.
  - apply wf_rows_iff; auto.
  - apply wf_rows_iff; auto.
Qed.

Lemma rows_ok_cat (rows c1 c2 : nat) (d1 d2 : list (list A)) :
  rows_ok rows c1 d1 -> rows_ok rows c2 d2 ->
  rows_ok rows (c1 + c2) (map2 (@app A) d1 d2).
Proof.
  intros [L1 F1] [L2 F2]. split.
  - rewrite map2_length; congruence.
  - clear L1 L2. revert d2 F2.
    induction F1 as [|r1 d1 Hr1 _ IH]; intros [|r2 d2] F2; simpl; auto.
    inversion F2; subst. constructor; auto.
    now rewrite length_app.
Qed.

(** Reading the concatenated rows at [(x, y)] reads the left operand left
    of the seam and the right operand, shifted, right of it. *)
Lemma rows_cat_get (rows c1 c2 : nat) (d1 d2 : list (list A)) (x y : nat) :
  rows_ok rows c1 d1 -> rows_ok rows c2 d2 -> x < rows ->
  (row <- py_getitem (map2 (@app A) d1 d2) x ;; py_getitem row y) =
  if y <? c1 then row <- py_getitem d1 x ;; py_getitem row y
  else row <- py_getitem d2 x ;; py_getitem row (y - c1).
Proof.
  intros [L1 F1] [L2 F2] Hx.
  destruct (@py_getitem_lt _ d1 x) as (r1 & G1 & N1); [lia|].
  destruct (@py_getitem_lt _ d2 x) as (r2 & G2 & N2); [lia|].
  assert (Hr1 : length r1 = c1).
  { rewrite Forall_forall in F1. apply F1. eapply nth_error_In; eauto. }
  unfold py_getitem at 1. rewrite (nth_error_map2 _ _ _ _ N1 N2).
  rewrite G1, G2. simpl. rewrite py_getitem_app, Hr1.
  now destruct (y <? c1).
Qed.
End Tensor_facts.

(** ** Concatenation of the pool frames *)

Section Concatenation.
Variable A : Type.

Lemma cat2_dim1_get (m1 m2 : tensor2 A) (x y : nat) :
  wf2 m1 = true -> wf2 m2 = true -> t2_rows m1 = t2_rows m2 ->
  t2_get (T2 (t2_rows m1) (t2_cols m1 + t2_cols m2)
             (map2 (@app A) (t2_data m1) (t2_data m2))) x y =
  if y <? t2_cols m1 then t2_get m1 x y else t2_get m2 x (y - t2_cols m1).
Proof.
  intros W1 W2 R. apply wf_rows_iff in W1, W2. rewrite <- R in W2.
  unfold t2_get; simpl. rewrite <- R.
  destruct (Nat.ltb_spec x (t2_rows m1)) as [Hx|Hx]; simpl.
  - rewrite (rows_cat_get y W1 W2 Hx).
    destruct (Nat.ltb_spec y (t2_cols m1)) as [Hy|Hy].
    + replace (y <? t2_cols m1 + t2_cols m2) with true; [reflexivity|].
      symmetry; apply Nat.ltb_lt; lia.
    + destruct (Nat.ltb_spec y (t2_cols m1 + t2_cols m2));
        destruct (Nat.ltb_spec (y - t2_cols m1) (t2_cols m2));
        try lia; reflexivity.
  - now destruct (y <? t2_cols m1).
Qed.

Lemma cat2_dim1_wf (m1 m2 : tensor2 A) :
  wf2 m1 = true -> wf2 m2 = true -> t2_rows m1 = t2_rows m2 ->
  wf2 (T2 (t2_rows m1) (t2_cols m1 + t2_cols m2)
          (map2 (@app A) (t2_data m1) (t2_data m2))) = true.
Proof.
  intros W1 W2 R. apply wf_rows_iff; simpl. apply wf_rows_iff in W1, W2.
  rewrite <- R in W2. now apply rows_ok_cat.
Qed.

Lemma cat3_dim2_get (e1 e2 : tensor3 A) (x y : nat) :
  wf3 e1 = true -> wf3 e2 = true ->
  t3_d0 e1 = t3_d0 e2 -> t3_d1 e1 = t3_d1 e2 ->
  t3_get (T3 (t3_d0 e1) (t3_d1 e1) (t3_d2 e1 + t3_d2 e2)
             (map2 (map2 (@app A)) (t3_data e1) (t3_data e2))) x y =
  if y <? t3_d2 e1 then t3_get e1 x y else t3_get e2 x (y - t3_d2 e1).
Proof.
  intros W1 W2 E0 E1. apply wf3_iff in W1, W2.
  destruct W1 as [L1 F1], W2 as [L2 F2]. rewrite <- E1 in F2.
  unfold t3_get; simpl. rewrite <- E1.
  destruct (Nat.ltb_spec x (t3_d1 e1)) as [Hx|Hx]; simpl;
    [|now destruct (y <? t3_d2 e1)].
  destruct (Nat.ltb_spec y (t3_d2 e1)) as [Hy|Hy].
  - replace (y <? t3_d2 e1 + t3_d2 e2) with true
      by (symmetry; apply Nat.ltb_lt; lia).
    eapply mapM_map2_l; eauto; [congruence|].
    intros a b Ha Hb. cbv beta. rewrite (rows_cat_get y Ha Hb Hx).
    apply Nat.ltb_lt in Hy. now rewrite Hy.
  - destruct (Nat.ltb_spec y (t3_d2 e1 + t3_d2 e2));
      destruct (Nat.ltb_spec (y - t3_d2 e1) (t3_d2 e2));
      try lia; try reflexivity.
    eapply mapM_map2_r; eauto; [congruence|].
    intros a b Ha Hb. cbv beta. rewrite (rows_cat_get y Ha Hb Hx).
    apply Nat.ltb_ge in Hy. now rewrite Hy.
Qed.

Lemma cat3_dim2_wf (e1 e2 : tensor3 A) :
  wf3 e1 = true -> wf3 e2 = true ->
  t3_d0 e1 = t3_d0 e2 -> t3_d1 e1 = t3_d1 e2 ->
  wf3 (T3 (t3_d0 e1) (t3_d1 e1) (t3_d2 e1 + t3_d2 e2)
          (map2 (map2 (@app A)) (t3_data e1) (t3_data e2))) = true.
Proof.
  intros W1 W2 E0 E1. apply wf3_iff in W1, W2. apply wf3_iff; simpl.
  destruct W1 as [L1 F1], W2 as [L2 F2]. rewrite <- E1 in F2. split.
  - rewrite map2_length; congruence.
  - clear L1 L2. generalize dependent (t3_data e2).
    induction F1 as [|c1 d1 Hc1 _ IH]; intros [|c2 d2] F2; simpl; auto.
    inversion F2; subst. constructor; auto using rows_ok_cat.
Qed.

(** Inside its shape a well-formed field yields one scalar per channel. *)
Lemma t3_get_in_range (e : tensor3 A) (x y : nat) :
  wf3 e = true -> x < t3_d1 e -> y < t3_d2 e ->
  exists v, t3_get e x y = Ok v /\ length v = t3_d0 e.
Proof.
  intros W Hx Hy. apply wf3_iff in W. destruct W as [L F].
  unfold t3_get.
  replace (x <? t3_d1 e) with true by (symmetry; now apply Nat.ltb_lt).
  replace (y <? t3_d2 e) with true by (symmetry; now apply Nat.ltb_lt).
  simpl.
  destruct (mapM_Forall_Ok
              (fun ch => row <- py_getitem ch x ;; py_getitem row y)
              (l := t3_data e)) as (v & Hv).
  - eapply Forall_impl; [|exact F]. intros ch [Lc Fc]. cbv beta.
    destruct (@py_getitem_lt _ ch x) as (row & G & N); [lia|].
    rewrite G; simpl.
    destruct (@py_getitem_lt _ row y) as (a & Ga & _); [|eauto].
    rewrite Forall_forall in Fc. rewrite (Fc row); [lia|].
    eapply nth_error_In; eauto.
  - exists v. split; [exact Hv|]. apply mapM_length in Hv. congruence.
Qed.
End Concatenation.

(** The two joins on any masks of equal height and any fields of equal depth
    and height: both succeed and give well-formed tensors, the height is
    kept and the widths add, and a read at [(x, y)] goes to the left operand
    when [y] is below its width and to the right operand at
    [(x, y - that width)] otherwise. *)
Lemma concatenation_of_tensors (A : Type) (m1 m2 : mask) (e1 e2 : tensor3 A) :
  wf2 m1 = true -> wf2 m2 = true -> t2_rows m1 = t2_rows m2 ->
  wf3 e1 = true -> wf3 e2 = true ->
  t3_d0 e1 = t3_d0 e2 -> t3_d1 e1 = t3_d1 e2 ->
  exists (m : mask) (e : tensor3 A),
    cat2_dim1 m1 m2 = Ok m /\ cat3_dim2 e1 e2 = Ok e /\
    wf2 m = true /\ wf3 e = true /\
    t2_rows m = t2_rows m1 /\ t2_cols m = t2_cols m1 + t2_cols m2 /\
    t3_d0 e = t3_d0 e1 /\ t3_d1 e = t3_d1 e1 /\
    t3_d2 e = t3_d2 e1 + t3_d2 e2 /\
    (forall x y,
        t3_get e x y =
        if y <? t3_d2 e1 then t3_get e1 x y else t3_get e2 x (y - t3_d2 e1)) /\
    (forall x y,
        t2_get m x y =
        if y <? t2_cols m1 then t2_get m1 x y else t2_get m2 x (y - t2_cols m1)) /\
    (forall x y, x < t3_d1 e -> y < t3_d2 e ->
                 exists v, t3_get e x y = Ok v /\ length v = t3_d0 e).
Proof.
  intros W1 W2 R V1 V2 E0 E1.
  set (m := T2 (t2_rows m1) (t2_cols m1 + t2_cols m2)
               (map2 (@app Z) (t2_data m1) (t2_data m2))).
  set (e := T3 (t3_d0 e1) (t3_d1 e1) (t3_d2 e1 + t3_d2 e2)
               (map2 (map2 (@app A)) (t3_data e1) (t3_data e2))).
  pose proof (@cat2_dim1_wf Z m1 m2 W1 W2 R) as Wm.
  pose proof (@cat3_dim2_wf A e1 e2 V1 V2 E0 E1) as We.
  exists m, e.
  split. { unfold cat2_dim1. now rewrite R, Nat.eqb_refl, <- R. }
  split. { unfold cat3_dim2. now rewrite E0, E1, !Nat.eqb_refl, <- E0, <- E1. }
  do 7 (split; [assumption || reflexivity|]).
  split; [|split].
  - intros x y. now apply cat3_dim2_get.
  - intros x y. now apply cat2_dim1_get.
  - intros x y Hx Hy. exact (@t3_get_in_range A e x y We Hx Hy).
Qed.

(** ** Index sets of a mask *)

Lemma filter_map_length {A B : Type} (f : B -> bool) (g : A -> B) (l : list A) :
  length (filter f (map g l)) = length (filter (fun a => f (g a)) l).
Proof.
  induction l as [|a l IH]; simpl; [reflexivity|].
  destruct (f (g a)); simpl; congruence.
Qed.

Lemma nonzero_row_length (x y : nat) (row : list Z) :
  length (nonzero_row x y row) = length (filter is_foreground row).
Proof.
  revert y. induction row as [|v row IH]; intros y; simpl; [reflexivity|].
  unfold is_foreground at 1. rewrite length_app, IH.
  now destruct (Z.eqb v 0).
Qed.

Lemma nonzero_rows_length (x : nat) (rows : list (list Z)) :
  length (nonzero_rows x rows) = length (filter is_foreground (concat rows)).
Proof.
  revert x. induction rows as [|r rows IH]; intros x; simpl; [reflexivity|].
  now rewrite filter_app, !length_app, nonzero_row_length, IH.
Qed.

(** [torch.nonzero(m)] has one row per foreground pixel. *)
Lemma nonzero_length (m : mask) :
  length (nonzero m) = count_pixels is_foreground m.
Proof. apply nonzero_rows_length. Qed.

(** [torch.nonzero(m == 0)] has one row per background pixel. *)
Lemma nonzero_eq_zero_length (m : mask) :
  length (nonzero (eq_zero m)) = count_pixels is_background m.
Proof.
  rewrite nonzero_length. unfold count_pixels, pixels, eq_zero; simpl.
  rewrite <- concat_map, filter_map_length.
  f_equal. apply filter_ext. intros v.
  unfold is_foreground, is_background. now destruct (Z.eqb v 0).
Qed.

Lemma eq_zero_wf (m : mask) : wf2 m = true -> wf2 (eq_zero m) = true.
Proof.
  intros W. apply wf_rows_iff in W. apply wf_rows_iff.
  destruct W as [L F]. unfold eq_zero; simpl. split.
  - now rewrite length_map.
  - apply Forall_map. eapply Forall_impl; [|exact F].
    intros r Hr. now rewrite length_map.
Qed.

Lemma nonzero_row_in_range (x y : nat) (row : list Z) :
  Forall (fun xy => fst xy = x /\ snd xy < y + length row) (nonzero_row x y row).
Proof.
  revert y. induction row as [|v row IH]; intros y; simpl; [constructor|].
  apply Forall_app. split.
  - destruct (Z.eqb v 0); constructor; [simpl; lia | constructor].
  - eapply Forall_impl; [|apply IH]. simpl. intros xy [H1 H2]. lia.
Qed.

Lemma nonzero_rows_in_range (x cols : nat) (rows : list (list Z)) :
  Forall (fun r => length r = cols) rows ->
  Forall (fun xy => fst xy < x + length rows /\ snd xy < cols) (nonzero_rows x rows).
Proof.
  intros F. revert x. induction F as [|r rows Hr _ IH]; intros x; simpl;
    [constructor|].
  apply Forall_app. split.
  - eapply Forall_impl; [|apply nonzero_row_in_range]. simpl.
    intros xy [H1 H2]. lia.
  - eapply Forall_impl; [|apply IH]. simpl. intros xy [H1 H2]. lia.
Qed.

(** Every coordinate [torch.nonzero] reports lies inside the mask. *)
Lemma nonzero_in_range (m : mask) :
  wf2 m = true ->
  Forall (fun xy => fst xy < t2_rows m /\ snd xy < t2_cols m) (nonzero m).
Proof.
  intros W. apply wf_rows_iff in W. destruct W as [L F].
  rewrite <- L. apply (nonzero_rows_in_range 0 F).
Qed.

Lemma numel_eqb_0 (indices : list (nat * nat)) :
  (numel indices =? 0) = (length indices =? 0).
Proof. unfold numel. now destruct indices. Qed.

(** The pixels of the combined pool mask are those of F1 and of F2. *)
Lemma count_concat_map2_app (f : Z -> bool) (d1 d2 : list (list Z)) :
  length d1 = length d2 ->
  length (filter f (concat (map2 (@app Z) d1 d2))) =
  length (filter f (concat d1)) + length (filter f (concat d2)).
Proof.
  revert d2. induction d1 as [|r1 d1 IH]; intros [|r2 d2]; simpl; intros H;
    try discriminate; [reflexivity|].
  rewrite !filter_app, !length_app, IH by lia. lia.
Qed.

Lemma binary_foreground (l : list Z) :
  forallb (fun v => Z.eqb v 0 || Z.eqb v 1) l = true ->
  length (filter is_foreground l) = length (filter (has_value 1) l).
Proof.
  induction l as [|v l IH]; simpl; [reflexivity|].
  rewrite andb_true_iff, orb_true_iff, !Z.eqb_eq. intros [[->| ->] H]; simpl;
    rewrite IH by assumption; reflexivity.
Qed.

(** ** Gathering embeddings *)

Lemma gather_in_range {A : Type} (e : tensor3 A) (indices : list (nat * nat)) :
  wf3 e = true ->
  Forall (fun xy => fst xy < t3_d1 e /\ snd xy < t3_d2 e) indices ->
  indices <> [] ->
  exists b, gather e indices = Ok b /\ length b = length indices.
Proof.
  intros W F Hne. unfold gather.
  destruct (mapM_Forall_Ok (fun xy => t3_get e (fst xy) (snd xy)) (l := indices))
    as (rows & Hrows).
  - eapply Forall_impl; [|exact F]. intros xy [Hx Hy].
    destruct (t3_get_in_range e W Hx Hy) as (v & Hv & _). eauto.
  - rewrite Hrows. simpl. pose proof (mapM_length _ _ Hrows) as L.
    destruct rows as [|r rows].
    + destruct indices; [congruence | discriminate].
    + simpl. eauto.
Qed.

(** ** The pool builder on well-shaped inputs *)

Lemma wf_annotation_frame (annotation : tensor3 Z) (i : nat) :
  wf_annotation annotation = true -> i < 3 ->
  t3_select annotation i = Ok (frame annotation i)
  /\ wf2 (frame annotation i) = true.
Proof.
  unfold wf_annotation. rewrite andb_true_iff, Nat.eqb_eq.
  intros [W E] Hi. apply wf3_iff in W. destruct W as [L F].
  assert (Hlt : i < length (t3_data annotation)) by lia.
  split.
  - unfold t3_select, frame. now rewrite (py_getitem_nth _ [] Hlt).
  - apply wf_rows_iff. unfold frame; simpl.
    rewrite Forall_forall in F. apply F. now apply nth_In.
Qed.

(** The combined pool mask of a sample, line 171. *)
Lemma pool_mask_counts (annotation : tensor3 Z) (f : Z -> bool) :
  wf_annotation annotation = true ->
  exists all_pool_points : mask,
    cat2_dim1 (frame annotation 1) (frame annotation 2) = Ok all_pool_points
    /\ wf2 all_pool_points = true
    /\ t2_rows all_pool_points = t3_d1 annotation
    /\ t2_cols all_pool_points = t3_d2 annotation + t3_d2 annotation
    /\ count_pixels f all_pool_points =
       count_pixels f (frame annotation 1) + count_pixels f (frame annotation 2).
Proof.
  intros W.
  destruct (@wf_annotation_frame annotation 1 W) as [_ W1]; [lia|].
  destruct (@wf_annotation_frame annotation 2 W) as [_ W2]; [lia|].
  exists (T2 (t3_d1 annotation) (t3_d2 annotation + t3_d2 annotation)
             (map2 (@app Z) (t2_data (frame annotation 1))
                   (t2_data (frame annotation 2)))).
  split; [unfold cat2_dim1; simpl; now rewrite Nat.eqb_refl|].
  split; [exact (@cat2_dim1_wf Z _ _ W1 W2 eq_refl)|].
  split; [reflexivity|]. split; [reflexivity|].
  unfold count_pixels, pixels; simpl.
  apply wf_rows_iff in W1, W2. destruct W1 as [L1 _], W2 as [L2 _].
  apply count_concat_map2_app. simpl in *. congruence.
Qed.

Lemma wf_embeddings_inv {A : Type} (embeddings : list (tensor3 A)) :
  wf_embeddings embeddings = true ->
  exists a f1 f2,
    embeddings = [a; f1; f2]
    /\ wf3 a = true /\ wf3 f1 = true /\ wf3 f2 = true
    /\ (t3_d0 a = t3_d0 f1 /\ t3_d1 a = t3_d1 f1 /\ t3_d2 a = t3_d2 f1)
    /\ (t3_d0 a = t3_d0 f2 /\ t3_d1 a = t3_d1 f2 /\ t3_d2 a = t3_d2 f2).
Proof.
  destruct embeddings as [|a [|f1 [|f2 [|? ?]]]]; simpl; try discriminate.
  unfold same_shape3. rewrite !andb_true_iff, !Nat.eqb_eq.
  intros H. exists a, f1, f2. intuition.
Qed.

(** The pooled embedding field of a well-shaped batch, line 153. *)
Lemma pool_field_ok {A : Type} (a f1 f2 : tensor3 A) :
  wf_embeddings [a; f1; f2] = true ->
  exists embedding_pool_points,
    cat3_dim2 f1 f2 = Ok embedding_pool_points
    /\ wf3 embedding_pool_points = true
    /\ t3_d1 embedding_pool_points = t3_d1 a
    /\ t3_d2 embedding_pool_points = t3_d2 a + t3_d2 a.
Proof.
  intros W. apply wf_embeddings_inv in W.
  destruct W as (a' & g1 & g2 & E & Wa & W1 & W2 & (A0 & A1 & A2) & (B0 & B1 & B2)).
  inversion E; subst a' g1 g2.
  assert (E0 : t3_d0 f1 = t3_d0 f2) by congruence.
  assert (E1 : t3_d1 f1 = t3_d1 f2) by congruence.
  exists (T3 (t3_d0 f1) (t3_d1 f1) (t3_d2 f1 + t3_d2 f2)
             (map2 (map2 (@app A)) (t3_data f1) (t3_data f2))).
  split; [unfold cat3_dim2; now rewrite E0, E1, !Nat.eqb_refl, <- E0, <- E1|].
  split; [exact (@cat3_dim2_wf A f1 f2 W1 W2 E0 E1)|].
  simpl. split; congruence.
Qed.

Lemma degenerate_false (annotation : tensor3 Z) :
  degenerate annotation = false ->
  fg_anchor_size annotation <> 0 /\ bg_anchor_size annotation <> 0
  /\ fg_pool_size annotation <> 0 /\ bg_pool_size annotation <> 0.
Proof.
  unfold degenerate. rewrite !orb_false_iff, !Nat.eqb_neq. tauto.
Qed.

Lemma masks_fit_inv {A : Type} (annotation : tensor3 Z) (a f1 f2 : tensor3 A) :
  masks_fit annotation [a; f1; f2] = true ->
  t3_d1 annotation <= t3_d1 a /\ t3_d2 annotation <= t3_d2 a.
Proof.
  unfold masks_fit; simpl. rewrite !andb_true_iff, !Nat.leb_le. tauto.
Qed.

(** The builder as a function of the sizes of the index sets: [None] as soon
    as an anchor set is empty, then [None] as soon as a pool set is empty,
    and the four gathers otherwise. *)
Lemma create_triplet_pools_cases {A I : Type} (s : sample I) (a f1 f2 : tensor3 A) :
  wf_annotation (s_annotation s) = true ->
  wf_embeddings [a; f1; f2] = true ->
  exists all_pool_points embedding_pool_points,
    cat2_dim1 (frame (s_annotation s) 1) (frame (s_annotation s) 2) = Ok all_pool_points
    /\ cat3_dim2 f1 f2 = Ok embedding_pool_points
    /\ create_triplet_pools s [a; f1; f2] =
       if (fg_anchor_size (s_annotation s) =? 0) || (bg_anchor_size (s_annotation s) =? 0)
       then Ok None
       else if (fg_pool_size (s_annotation s) =? 0) || (bg_pool_size (s_annotation s) =? 0)
       then Ok None
       else
         fg_a <- gather a (nonzero (frame (s_annotation s) 0)) ;;
         bg_a <- gather a (nonzero (eq_zero (frame (s_annotation s) 0))) ;;
         fg_p <- gather embedding_pool_points (nonzero all_pool_points) ;;
         bg_p <- gather embedding_pool_points (nonzero (eq_zero all_pool_points)) ;;
         Ok (Some (Pools fg_a fg_p bg_p bg_a bg_p fg_p)).
Proof.
  intros Wann Wemb.
  destruct (@pool_mask_counts (s_annotation s) is_foreground Wann) as (apm & Hapm & _ & _ & _ & Cfg).
  destruct (@pool_mask_counts (s_annotation s) is_background Wann) as (apm' & Hapm' & _ & _ & _ & Cbg).
  rewrite Hapm in Hapm'. inversion Hapm'; subst apm'. clear Hapm'.
  destruct (@pool_field_ok A a f1 f2 Wemb) as (epp & Hepp & _).
  exists apm, epp. split; [exact Hapm|]. split; [exact Hepp|].
  destruct (@wf_annotation_frame (s_annotation s) 0 Wann) as [S0 _]; [lia|].
  destruct (@wf_annotation_frame (s_annotation s) 1 Wann) as [S1 _]; [lia|].
  destruct (@wf_annotation_frame (s_annotation s) 2 Wann) as [S2 _]; [lia|].
  unfold create_triplet_pools.
  change (py_getitem [a; f1; f2] 0) with (Ok a).
  change (py_getitem [a; f1; f2] 1) with (Ok f1).
  change (py_getitem [a; f1; f2] 2) with (Ok f2).
  cbn [bind]. rewrite Hepp. cbn [bind]. rewrite S0. cbn [bind].
  rewrite !numel_eqb_0, nonzero_length, nonzero_eq_zero_length.
  fold (fg_anchor_size (s_annotation s)). fold (bg_anchor_size (s_annotation s)).
  destruct ((fg_anchor_size (s_annotation s) =? 0)
            || (bg_anchor_size (s_annotation s) =? 0)); [reflexivity|].
  rewrite S1. cbn [bind]. rewrite S2. cbn [bind]. rewrite Hapm. cbn [bind].
  rewrite !numel_eqb_0, nonzero_length, nonzero_eq_zero_length, Cfg, Cbg.
  fold (fg_pool_size (s_annotation s)). fold (bg_pool_size (s_annotation s)).
  reflexivity.
Qed.

(** A degenerate sample makes the builder return [None]. *)
Lemma create_triplet_pools_degenerate {A I : Type} (s : sample I)
      (embeddings : list (tensor3 A)) :
  wf_annotation (s_annotation s) = true ->
  wf_embeddings embeddings = true ->
  degenerate (s_annotation s) = true ->
  create_triplet_pools s embeddings = Ok None.
Proof.
  intros Wann Wemb Hdeg.
  destruct (wf_embeddings_inv embeddings Wemb) as (a & f1 & f2 & -> & _).
  destruct (@create_triplet_pools_cases A I s a f1 f2 Wann Wemb)
    as (apm & epp & _ & _ & ->).
  unfold degenerate in Hdeg.
  destruct ((fg_anchor_size (s_annotation s) =? 0)
            || (bg_anchor_size (s_annotation s) =? 0)); [reflexivity|].
  simpl in Hdeg. now rewrite Hdeg.
Qed.

(** C2.  For a well-shaped annotation triple and a well-shaped batch of
    embedding fields, as soon as one of the four index sets (foreground or
    background of the anchor mask, foreground or background of the two pool
    masks together) is empty, [create_triplet_pools] returns [None]: the
    result is [Ok], so nothing is raised. *)
Theorem pool_emptiness_guard (A I : Type) (s : sample I)
        (embeddings : list (tensor3 A)) :
  wf_annotation (s_annotation s) = true ->
  wf_embeddings embeddings = true ->
  fg_anchor_size (s_annotation s) = 0 \/ bg_anchor_size (s_annotation s) = 0
  \/ fg_pool_size (s_annotation s) = 0 \/ bg_pool_size (s_annotation s) = 0 ->
  create_triplet_pools s embeddings = Ok None.
Proof.
  intros Wann Wemb Hempty.
  apply create_triplet_pools_degenerate; auto.
  unfold degenerate. rewrite !orb_true_iff, !Nat.eqb_eq. tauto.
Qed.

Lemma pool_emptiness_guard_witness :
  create_triplet_pools Toy.empty_anchor_sample Toy.frames = Ok None
  /\ create_triplet_pools Toy.full_pool_sample Toy.frames = Ok None.
Proof.
  split.
  - apply pool_emptiness_guard; [reflexivity | reflexivity |].
    left. reflexivity.
  - apply pool_emptiness_guard; [reflexivity | reflexivity |].
    right. right. right. reflexivity.
Defined.

(** On a valid input the builder returns six batches, one row per index of
    the set each batch is gathered from, the negative pools being the
    positive pools of the other class. *)
Lemma create_triplet_pools_valid {A I : Type} (s : sample I)
      (embeddings : list (tensor3 A)) :
  valid_input s embeddings = true ->
  exists p,
    create_triplet_pools s embeddings = Ok (Some p)
    /\ length (fg_embedding_a p) = fg_anchor_size (s_annotation s)
    /\ length (bg_embedding_a p) = bg_anchor_size (s_annotation s)
    /\ length (fg_positive_pool p) = fg_pool_size (s_annotation s)
    /\ length (bg_positive_pool p) = bg_pool_size (s_annotation s)
    /\ fg_negative_pool p = bg_positive_pool p
    /\ bg_negative_pool p = fg_positive_pool p.
Proof.
  unfold valid_input. rewrite !andb_true_iff, negb_true_iff.
  intros [[[Wann Wemb] Hfit] Hnd].
  destruct (wf_embeddings_inv embeddings Wemb)
    as (a & f1 & f2 & -> & Wa & _).
  apply masks_fit_inv in Hfit. destruct Hfit as [Hrows Hcols].
  apply degenerate_false in Hnd. destruct Hnd as (N1 & N2 & N3 & N4).
  destruct (@create_triplet_pools_cases A I s a f1 f2 Wann Wemb)
    as (apm & epp & Hapm & Hepp & ->).
  destruct (@pool_mask_counts (s_annotation s) is_foreground Wann)
    as (apm' & Hapm' & Wapm & Rapm & Capm & Cfg).
  rewrite Hapm in Hapm'. inversion Hapm'; subst apm'. clear Hapm'.
  destruct (@pool_mask_counts (s_annotation s) is_background Wann)
    as (apm' & Hapm' & _ & _ & _ & Cbg).
  rewrite Hapm in Hapm'. inversion Hapm'; subst apm'. clear Hapm'.
  destruct (@pool_field_ok A a f1 f2 Wemb) as (epp' & Hepp' & Wepp & Repp & Cepp).
  rewrite Hepp in Hepp'. inversion Hepp'; subst epp'. clear Hepp'.
  destruct (@wf_annotation_frame (s_annotation s) 0 Wann) as [_ W0]; [lia|].
  apply Nat.eqb_neq in N1, N2, N3, N4. rewrite N1, N2, N3, N4. simpl orb. cbv iota.
  apply Nat.eqb_neq in N1, N2, N3, N4.
  (* the four gathers *)
  destruct (@gather_in_range A a (nonzero (frame (s_annotation s) 0)))
    as (fg_a & Gfg_a & Lfg_a); auto.
  { eapply Forall_impl; [|apply (nonzero_in_range _ W0)]. simpl. lia. }
  { intros E. apply N1. unfold fg_anchor_size. now rewrite <- nonzero_length, E. }
  destruct (@gather_in_range A a (nonzero (eq_zero (frame (s_annotation s) 0))))
    as (bg_a & Gbg_a & Lbg_a); auto.
  { eapply Forall_impl; [|apply (nonzero_in_range _ (eq_zero_wf _ W0))]. simpl. lia. }
  { intros E. apply N2. unfold bg_anchor_size. now rewrite <- nonzero_eq_zero_length, E. }
  destruct (@gather_in_range A epp (nonzero apm))
    as (fg_p & Gfg_p & Lfg_p); auto.
  { eapply Forall_impl; [|apply (nonzero_in_range _ Wapm)]. simpl. lia. }
  { intros E. apply N3. unfold fg_pool_size. now rewrite <- Cfg, <- nonzero_length, E. }
  destruct (@gather_in_range A epp (nonzero (eq_zero apm)))
    as (bg_p & Gbg_p & Lbg_p); auto.
  { eapply Forall_impl; [|apply (nonzero_in_range _ (eq_zero_wf _ Wapm))]. simpl. lia. }
  { intros E. apply N4. unfold bg_pool_size. now rewrite <- Cbg, <- nonzero_eq_zero_length, E. }
  rewrite Gfg_a, Gbg_a, Gfg_p, Gbg_p. cbn [bind].
  eexists. split; [reflexivity|]. simpl.
  rewrite Lfg_a, Lbg_a, Lfg_p, Lbg_p.
  rewrite !nonzero_eq_zero_length, !nonzero_length, Cfg, Cbg.
  repeat split; reflexivity.
Qed.

Lemma mapM_Forall2 {A B : Type} (f : A -> result B) (l : list A) (bs : list B) :
  mapM f l = Ok bs -> Forall2 (fun a b => f a = Ok b) l bs.
Proof.
  revert bs. induction l as [|a l IH]; simpl; intros bs H.
  - inversion H. constructor.
  - apply bind_Ok in H. destruct H as (b & Hb & H).
    apply bind_Ok in H. destruct H as (bs' & Hbs & H).
    inversion H; subst. constructor; auto.
Qed.

(** A gather that succeeds reads one vector per index, in order. *)
Lemma gather_rows {A : Type} (e : tensor3 A) (indices : list (nat * nat))
      (b : batch A) :
  gather e indices = Ok b ->
  Forall2 (fun xy row => t3_get e (fst xy) (snd xy) = Ok row) indices b.
Proof.
  unfold gather. intros H. apply bind_Ok in H. destruct H as (rows & Hrows & H).
  destruct rows; [discriminate|]. inversion H; subst.
  now apply mapM_Forall2.
Qed.

(** The pieces of a returned pool set: the combined mask, the combined
    field and the four gathers. *)
Lemma create_triplet_pools_some {A I : Type} (s : sample I) (a f1 f2 : tensor3 A)
      (p : triplet_pools A) :
  wf_annotation (s_annotation s) = true ->
  wf_embeddings [a; f1; f2] = true ->
  create_triplet_pools s [a; f1; f2] = Ok (Some p) ->
  exists all_pool_points embedding_pool_points,
    cat2_dim1 (frame (s_annotation s) 1) (frame (s_annotation s) 2) = Ok all_pool_points
    /\ cat3_dim2 f1 f2 = Ok embedding_pool_points
    /\ gather a (nonzero (frame (s_annotation s) 0)) = Ok (fg_embedding_a p)
    /\ gather a (nonzero (eq_zero (frame (s_annotation s) 0))) = Ok (bg_embedding_a p)
    /\ gather embedding_pool_points (nonzero all_pool_points) = Ok (fg_positive_pool p)
    /\ gather embedding_pool_points (nonzero (eq_zero all_pool_points))
       = Ok (bg_positive_pool p).
Proof.
  intros Wann Wemb H.
  destruct (@create_triplet_pools_cases A I s a f1 f2 Wann Wemb)
    as (apm & epp & Hapm & Hepp & Hc).
  rewrite Hc in H. clear Hc.
  exists apm, epp. split; [exact Hapm|]. split; [exact Hepp|].
  destruct (_ || _); [discriminate|].
  destruct (_ || _); [discriminate|].
  apply bind_Ok in H. destruct H as (fg_a & G1 & H).
  apply bind_Ok in H. destruct H as (bg_a & G2 & H).
  apply bind_Ok in H. destruct H as (fg_p & G3 & H).
  apply bind_Ok in H. destruct H as (bg_p & G4 & H).
  inversion H; subst p. simpl. auto.
Qed.

(** Whatever the input, pools that are returned are role-swapped. *)
Lemma create_triplet_pools_role_swap {A I : Type} (s : sample I)
      (embeddings : list (tensor3 A)) (p : triplet_pools A) :
  create_triplet_pools s embeddings = Ok (Some p) ->
  fg_negative_pool p = bg_positive_pool p
  /\ bg_negative_pool p = fg_positive_pool p.
Proof.
  unfold create_triplet_pools. intros H.
  repeat (apply bind_Ok in H; destruct H as (? & _ & H)).
  destruct (_ || _); [discriminate|].
  repeat (apply bind_Ok in H; destruct H as (? & _ & H)).
  destruct (_ || _); [discriminate|].
  repeat (apply bind_Ok in H; destruct H as (? & _ & H)).
  inversion H; subst p. simpl. split; reflexivity.
Qed.

(** C3.  On every valid input [create_triplet_pools] returns pools in which
    [fg_negative_pool] is [bg_positive_pool] and [bg_negative_pool] is
    [fg_positive_pool]. *)
Theorem role_swap_symmetry (A I : Type) (s : sample I)
        (embeddings : list (tensor3 A)) :
  valid_input s embeddings = true ->
  exists p,
    create_triplet_pools s embeddings = Ok (Some p)
    /\ fg_negative_pool p = bg_positive_pool p
    /\ bg_negative_pool p = fg_positive_pool p.
Proof.
  intros Hvalid.
  destruct (@create_triplet_pools_valid A I s embeddings Hvalid) as (p & Hp & _).
  exists p. split; [exact Hp|].
  exact (@create_triplet_pools_role_swap A I s embeddings p Hp).
Qed.

Lemma role_swap_symmetry_witness :
  exists p,
    create_triplet_pools Toy.good_sample Toy.frames = Ok (Some p)
    /\ fg_negative_pool p = bg_positive_pool p
    /\ bg_negative_pool p = fg_positive_pool p.
Proof.
  apply role_swap_symmetry. reflexivity.
Defined.

(** C4.  On every valid input with binary masks the batches have one row per
    pixel of their class: [fg_positive_pool] one per pixel of value 1 in F1
    and F2 together, [bg_positive_pool] one per pixel of value 0 in F1 and F2
    together, [fg_embedding_a] one per pixel of value 1 in the anchor mask and
    [bg_embedding_a] one per pixel of value 0 in the anchor mask. *)
Theorem pool_cardinality (A I : Type) (s : sample I)
        (embeddings : list (tensor3 A)) :
  valid_input s embeddings = true ->
  binary_mask (frame (s_annotation s) 0) = true ->
  binary_mask (frame (s_annotation s) 1) = true ->
  binary_mask (frame (s_annotation s) 2) = true ->
  exists p,
    create_triplet_pools s embeddings = Ok (Some p)
    /\ length (fg_positive_pool p) =
       count_pixels (has_value 1) (frame (s_annotation s) 1)
       + count_pixels (has_value 1) (frame (s_annotation s) 2)
    /\ length (bg_positive_pool p) =
       count_pixels (has_value 0) (frame (s_annotation s) 1)
       + count_pixels (has_value 0) (frame (s_annotation s) 2)
    /\ length (fg_embedding_a p) =
       count_pixels (has_value 1) (frame (s_annotation s) 0)
    /\ length (bg_embedding_a p) =
       count_pixels (has_value 0) (frame (s_annotation s) 0).
Proof.
  intros Hvalid B0 B1 B2.
  destruct (@create_triplet_pools_valid A I s embeddings Hvalid)
    as (p & Hp & Lfa & Lba & Lfp & Lbp & _).
  exists p. split; [exact Hp|].
  rewrite Lfa, Lba, Lfp, Lbp.
  unfold fg_pool_size, bg_pool_size, fg_anchor_size, bg_anchor_size, count_pixels.
  rewrite !binary_foreground by assumption.
  repeat split; reflexivity.
Qed.

Lemma pool_cardinality_witness :
  exists p,
    create_triplet_pools Toy.good_sample Toy.frames = Ok (Some p)
    /\ length (fg_positive_pool p) = 3
    /\ length (bg_positive_pool p) = 5
    /\ length (fg_embedding_a p) = 1
    /\ length (bg_embedding_a p) = 3.
Proof.
  exact (@pool_cardinality Z _ Toy.good_sample Toy.frames
                           eq_refl eq_refl eq_refl eq_refl).
Defined.

(** ** The concatenations inside the builder *)

(** C5.  Lines 153 and 171 of [create_triplet_pools], for a well-shaped
    sample and well-shaped fields: the combined pool mask is the F1 mask and
    the F2 mask joined and the combined field is the F1 field and the F2 field
    joined; both keep the height and their width is the sum of the widths of
    F1 and F2; reading the combined field at [(x, y)] returns what reading F1
    at [(x, y)] returns when [y] is below the width of F1, and what reading
    F2 at [(x, y - width of F1)] returns otherwise, a vector with one scalar
    per channel inside the combined shape; the combined mask decomposes by
    the same rule, so mask and field are joined along the same spatial axis.
    These are the tensors the builder works on: for an input that is not
    degenerate, masks no larger than the fields, the pools it returns are the
    gathers from this combined field at the non-zero and at the zero
    coordinates of this combined mask, row by row the vector of F1 or of F2
    at the decomposed coordinate. *)
Theorem concatenation_correct (A I : Type) (s : sample I) (a f1 f2 : tensor3 A) :
  wf_annotation (s_annotation s) = true ->
  wf_embeddings [a; f1; f2] = true ->
  exists (all_pool_points : mask) (embedding_pool_points : tensor3 A),
    cat2_dim1 (frame (s_annotation s) 1) (frame (s_annotation s) 2)
    = Ok all_pool_points
    /\ cat3_dim2 f1 f2 = Ok embedding_pool_points
    /\ wf2 all_pool_points = true
    /\ wf3 embedding_pool_points = true
    /\ t2_rows all_pool_points = t2_rows (frame (s_annotation s) 1)
    /\ t2_cols all_pool_points
       = t2_cols (frame (s_annotation s) 1) + t2_cols (frame (s_annotation s) 2)
    /\ t3_d0 embedding_pool_points = t3_d0 f1
    /\ t3_d1 embedding_pool_points = t3_d1 f1
    /\ t3_d2 embedding_pool_points = t3_d2 f1 + t3_d2 f2
    /\ (forall x y,
          t3_get embedding_pool_points x y =
          if y <? t3_d2 f1 then t3_get f1 x y else t3_get f2 x (y - t3_d2 f1))
    /\ (forall x y,
          t2_get all_pool_points x y =
          if y <? t2_cols (frame (s_annotation s) 1)
          then t2_get (frame (s_annotation s) 1) x y
          else t2_get (frame (s_annotation s) 2) x
                      (y - t2_cols (frame (s_annotation s) 1)))
    /\ (forall x y,
          x < t3_d1 embedding_pool_points -> y < t3_d2 embedding_pool_points ->
          exists v, t3_get embedding_pool_points x y = Ok v
                    /\ length v = t3_d0 embedding_pool_points)
    /\ (masks_fit (s_annotation s) [a; f1; f2] = true ->
        degenerate (s_annotation s) = false ->
        exists p,
          create_triplet_pools s [a; f1; f2] = Ok (Some p)
          /\ gather embedding_pool_points (nonzero all_pool_points)
             = Ok (fg_positive_pool p)
          /\ gather embedding_pool_points (nonzero (eq_zero all_pool_points))
             = Ok (bg_positive_pool p)
          /\ Forall2 (fun xy row =>
                        (if snd xy <? t3_d2 f1
                         then t3_get f1 (fst xy) (snd xy)
                         else t3_get f2 (fst xy) (snd xy - t3_d2 f1)) = Ok row)
                     (nonzero all_pool_points) (fg_positive_pool p)
          /\ Forall2 (fun xy row =>
                        (if snd xy <? t3_d2 f1
                         then t3_get f1 (fst xy) (snd xy)
                         else t3_get f2 (fst xy) (snd xy - t3_d2 f1)) = Ok row)
                     (nonzero (eq_zero all_pool_points)) (bg_positive_pool p)).
Proof.
  intros Wann Wemb.
  destruct (@wf_annotation_frame (s_annotation s) 1 Wann) as [_ W1]; [lia|].
  destruct (@wf_annotation_frame (s_annotation s) 2 Wann) as [_ W2]; [lia|].
  destruct (@wf_embeddings_inv A _ Wemb)
    as (a' & g1 & g2 & E & _ & V1 & V2 & (A0 & A1 & _) & (B0 & B1 & _)).
  inversion E; subst a' g1 g2.
  assert (E0 : t3_d0 f1 = t3_d0 f2) by congruence.
  assert (E1 : t3_d1 f1 = t3_d1 f2) by congruence.
  destruct (@concatenation_of_tensors A (frame (s_annotation s) 1)
              (frame (s_annotation s) 2) f1 f2 W1 W2 eq_refl V1 V2 E0 E1)
    as (apm & epp & Hapm & Hepp & Wapm & Wepp & R & Cc & D0 & D1 & D2
        & Hget3 & Hget2 & Hrange).
  exists apm, epp.
  do 12 (split; [assumption|]).
  intros Hfit Hnd.
  destruct (@create_triplet_pools_valid A I s [a; f1; f2]) as (p & Hp & _).
  { unfold valid_input. now rewrite Wann, Wemb, Hfit, Hnd. }
  destruct (@create_triplet_pools_some A I s a f1 f2 p Wann Wemb Hp)
    as (apm' & epp' & Hapm' & Hepp' & _ & _ & G3 & G4).
  rewrite Hapm in Hapm'. inversion Hapm'; subst apm'.
  rewrite Hepp in Hepp'. inversion Hepp'; subst epp'.
  exists p. split; [exact Hp|]. split; [exact G3|]. split; [exact G4|].
  split.
  - eapply Forall2_impl; [|exact (@gather_rows A _ _ _ G3)].
    intros xy row Hrow. cbv beta in Hrow. now rewrite Hget3 in Hrow.
  - eapply Forall2_impl; [|exact (@gather_rows A _ _ _ G4)].
    intros xy row Hrow. cbv beta in Hrow. now rewrite Hget3 in Hrow.
Qed.

Lemma concatenation_correct_witness :
  exists (all_pool_points : mask) (embedding_pool_points : tensor3 Z) p,
    cat2_dim1 (frame (s_annotation Toy.good_sample) 1)
              (frame (s_annotation Toy.good_sample) 2) = Ok all_pool_points
    /\ cat3_dim2 (Toy.field 2) (Toy.field 3) = Ok embedding_pool_points
    /\ t2_cols all_pool_points = 4
    /\ t3_d2 embedding_pool_points = 4
    /\ t3_get embedding_pool_points 1 3 = t3_get (Toy.field 3) 1 1
    /\ create_triplet_pools Toy.good_sample Toy.frames = Ok (Some p)
    /\ gather embedding_pool_points (nonzero all_pool_points)
       = Ok (fg_positive_pool p).
Proof.
  destruct (@concatenation_correct Z _ Toy.good_sample
              (Toy.field 1) (Toy.field 2) (Toy.field 3) eq_refl eq_refl)
    as (apm & epp & Hapm & Hepp & _ & _ & _ & Hc & _ & _ & Hd & Hg & _ & _ & Hb).
  destruct (Hb eq_refl eq_refl) as (p & Hp & G3 & _).
  exists apm, epp, p.
  split; [exact Hapm|]. split; [exact Hepp|].
  split; [rewrite Hc; reflexivity|]. split; [rewrite Hd; reflexivity|].
  split; [exact (Hg 1 3)|]. split; [exact Hp | exact G3].
Defined.

(** ** The training loop *)

Section Training.
Context {D : Domain} {C : Collaborators}.

(** What [train_iteration] does with a sample the builder rejects: the
    network was called, the skip was traced, nothing else happened. *)
Lemma train_iteration_skip (epoch : nat) (log_interval checkpoint_interval : Z)
      (idx : nat) (s : sample image) (agg : float * float) (w : world) :
  create_triplet_pools s (model_call (w_model w) (s_image s)) = Ok None ->
  train_iteration epoch log_interval checkpoint_interval idx s agg w =
  (add_log (Debug_skipping (Z.of_nat idx + 1)) (add_call (s_image s) w), Ok agg).
Proof.
  intros H. unfold train_iteration, bindp, call_model, lift. simpl.
  now rewrite H.
Qed.
End Training.

(** C6.  When the pool builder returns [None] for a sample, the pass of the
    training loop over it ends normally with the accumulators [agg_fg_loss]
    and [agg_bg_loss] as they were; the model (parameters, mode, device,
    frozen layers), the gradients, the optimizer, the meter, the summary
    writer and the checkpoints are unchanged; only the call of the network
    and the debug record are added; and the outcome is the same whatever the
    loss functions are, so no loss takes part in it. *)
Theorem skip_does_not_mutate (D : Domain) (C : Collaborators)
        (epoch : nat) (log_interval checkpoint_interval : Z)
        (idx : nat) (s : sample image) (agg : float * float) (w : world) :
  create_triplet_pools s (model_call (w_model w) (s_image s)) = Ok None ->
  exists w',
    train_iteration epoch log_interval checkpoint_interval idx s agg w = (w', Ok agg)
    /\ w_model w' = w_model w
    /\ w_grads w' = w_grads w
    /\ w_optim w' = w_optim w
    /\ w_meter w' = w_meter w
    /\ w_scalars w' = w_scalars w
    /\ w_ckpts w' = w_ckpts w
    /\ w_calls w' = w_calls w ++ [s_image s]
    /\ w_log w' = w_log w ++ [Debug_skipping (Z.of_nat idx + 1)]
    /\ forall l v,
        train_iteration (C := with_losses C l v)
                        epoch log_interval checkpoint_interval idx s agg w
        = (w', Ok agg).
Proof.
  intros H.
  exists (add_log (Debug_skipping (Z.of_nat idx + 1)) (add_call (s_image s) w)).
  split; [now apply train_iteration_skip|].
  do 8 (split; [reflexivity|]).
  intros l v. now apply (train_iteration_skip (C := with_losses C l v)).
Qed.

Lemma skip_does_not_mutate_witness :
  exists w',
    train_iteration (C := Toy.collaborators) 0 1 1 0 Toy.empty_anchor_sample
                    (5%Z, 7%Z) Toy.world0 = (w', Ok (5%Z, 7%Z))
    /\ w_model w' = w_model Toy.world0
    /\ w_optim w' = w_optim Toy.world0.
Proof.
  destruct (@skip_does_not_mutate Toy.domain Toy.collaborators 0 1%Z 1%Z 0
              Toy.empty_anchor_sample (5%Z, 7%Z) Toy.world0 eq_refl)
    as (w' & H & Hm & _ & Ho & _).
  exists w'. auto.
Defined.

(** ** Checkpoints *)

Section Checkpoints.
Context {D : Domain} {C : Collaborators}.



End Checkpoints.




(** ** The validation loop *)

Section Validation.
Context {D : Domain} {C : Collaborators}.
Variable epoch : nat.
Variable log_interval : Z.
Variable k : Z.   (* num_val_samples_to_evaluate *)

(** One pass of the validation loop: the network is called once, the model
    and the meter are left alone, a pass that ends normally breaks exactly
    at index [k], and it does end normally when the builder hands back
    pools and the log interval is not zero. *)
Lemma validate_iteration_spec (idx : nat) (s : sample image)
      (agg : float * float) (w w1 : world) (r : result (float * float * bool)) :
  validate_iteration epoch log_interval k idx s agg w = (w1, r) ->
  w_model w1 = w_model w
  /\ w_calls w1 = w_calls w ++ [s_image s]
  /\ w_meter w1 = w_meter w
  /\ (forall agg' b, r = Ok (agg', b) -> b = Z.eqb (Z.of_nat idx) k)
  /\ (log_interval <> 0%Z -> yields_pools (w_model w) s ->
      exists agg', r = Ok (agg', Z.eqb (Z.of_nat idx) k)).
Proof.
  unfold validate_iteration, bindp, call_model, lift, yields_pools. simpl.
  destruct (create_triplet_pools s (model_call (w_model w) (s_image s)))
    as [[p|]|e]; simpl.
  - unfold py_mod. destruct (Z.eqb_spec log_interval 0) as [Hz|Hz]; simpl.
    + intros H; inversion H; subst; clear H. simpl.
      repeat split; auto; try discriminate. intros Hn; contradiction.
    + destruct (Z.eqb _ 0 || Z.eqb (Z.of_nat idx) k); simpl;
        intros H; inversion H; subst; clear H; simpl;
        (repeat split; auto;
         [intros agg' b Hb; now inversion Hb | intros _ _; eauto]).
  - intros H; inversion H; subst; clear H. simpl.
    repeat split; auto; try discriminate.
    intros _ (p & Hp). discriminate.
  - intros H; inversion H; subst; clear H. simpl.
    repeat split; auto; try discriminate.
    intros _ (p & Hp). discriminate.
Qed.

(** The loop never breaks at an index the data loader does not reach. *)
Lemma validate_loop_no_break (data : list (sample image)) (idx : nat)
      (agg : float * float) (w : world) :
  (k < Z.of_nat idx \/ Z.of_nat (idx + length data) <= k)%Z ->
  snd (validate_loop epoch log_interval k idx data agg w) <> Ok Broke.
Proof.
  revert idx agg w. induction data as [|s rest IH]; intros idx agg w Hk.
  - simpl. discriminate.
  - cbn [validate_loop]. unfold bindp.
    destruct (validate_iteration epoch log_interval k idx s agg w)
      as [w1 r] eqn:E.
    destruct (validate_iteration_spec _ _ _ _ E) as (_ & _ & _ & Hb & _).
    destruct r as [[agg' b]|e]; [|simpl; discriminate].
    rewrite (Hb agg' b eq_refl). simpl.
    destruct (Z.eqb_spec (Z.of_nat idx) k) as [Heq|Hne].
    + simpl in Hk. lia.
    + apply IH. simpl in Hk. lia.
Qed.

(** With a cap the data loader does not reach, the loop runs through every
    sample that yields pools and is left by exhaustion. *)
Lemma validate_loop_exhausts (data : list (sample image)) (idx : nat)
      (agg : float * float) (w : world) :
  (k < Z.of_nat idx \/ Z.of_nat (idx + length data) <= k)%Z ->
  log_interval <> 0%Z ->
  Forall (yields_pools (w_model w)) data ->
  exists w',
    validate_loop epoch log_interval k idx data agg w = (w', Ok Exhausted)
    /\ w_calls w' = w_calls w ++ map (@s_image image) data.
Proof.
  revert idx agg w. induction data as [|s rest IH]; intros idx agg w Hk Hli HF.
  - simpl. exists w. split; [reflexivity|]. now rewrite app_nil_r.
  - cbn [validate_loop]. unfold bindp.
    destruct (validate_iteration epoch log_interval k idx s agg w)
      as [w1 r] eqn:E.
    destruct (validate_iteration_spec _ _ _ _ E) as (Hm & Hc & _ & _ & Hok).
    inversion HF as [|? ? Hs Hrest]; subst.
    destruct (Hok Hli Hs) as (agg' & ->). simpl.
    destruct (Z.eqb_spec (Z.of_nat idx) k) as [Heq|Hne];
      [simpl in Hk; lia|].
    destruct (IH (S idx) agg' w1) as (w' & Hw' & Hcalls).
    + simpl in Hk. lia.
    + assumption.
    + now rewrite Hm.
    + exists w'. split; [exact Hw'|].
      rewrite Hcalls, Hc, <- app_assoc. reflexivity.
Qed.

(** With a cap the data loader reaches, the loop runs through the samples
    up to the cap, when they yield pools, and is left by [break]. *)
Lemma validate_loop_breaks (data : list (sample image)) (idx : nat)
      (agg : float * float) (w : world) :
  (Z.of_nat idx <= k < Z.of_nat (idx + length data))%Z ->
  log_interval <> 0%Z ->
  Forall (yields_pools (w_model w)) (firstn (Z.to_nat k + 1 - idx) data) ->
  exists w',
    validate_loop epoch log_interval k idx data agg w = (w', Ok Broke)
    /\ w_calls w' =
       w_calls w ++ map (@s_image image) (firstn (Z.to_nat k + 1 - idx) data).
Proof.
  revert idx agg w. induction data as [|s rest IH]; intros idx agg w Hk Hli HF.
  - simpl in Hk. lia.
  - cbn [validate_loop]. unfold bindp.
    destruct (validate_iteration epoch log_interval k idx s agg w)
      as [w1 r] eqn:E.
    destruct (validate_iteration_spec _ _ _ _ E) as (Hm & Hc & _ & _ & Hok).
    replace (Z.to_nat k + 1 - idx) with (S (Z.to_nat k - idx)) in * by lia.
    cbn [firstn] in *.
    inversion HF as [|? ? Hs Hrest]; subst.
    destruct (Hok Hli Hs) as (agg' & ->). simpl.
    destruct (Z.eqb_spec (Z.of_nat idx) k) as [Heq|Hne].
    + exists w1. split; [reflexivity|].
      replace (Z.to_nat k - idx) with 0 by lia.
      now rewrite firstn_0.
    + destruct (IH (S idx) agg' w1) as (w' & Hw' & Hcalls).
      * simpl in Hk. lia.
      * assumption.
      * replace (Z.to_nat k + 1 - S idx) with (Z.to_nat k - idx) by lia.
        now rewrite Hm.
      * exists w'. split; [exact Hw'|].
        rewrite Hcalls, Hc, <- app_assoc.
        replace (Z.to_nat k + 1 - S idx) with (Z.to_nat k - idx) by lia.
        reflexivity.
Qed.

(** Whatever happens, the loop calls the network on an initial segment of
    the data loader that ends at the cap at the latest. *)
Lemma validate_loop_at_most (data : list (sample image)) (idx : nat)
      (agg : float * float) (w : world) :
  (Z.of_nat idx <= k)%Z ->
  exists n,
    n <= Z.to_nat k + 1 - idx
    /\ w_calls (fst (validate_loop epoch log_interval k idx data agg w)) =
       w_calls w ++ map (@s_image image) (firstn n data).
Proof.
  revert idx agg w. induction data as [|s rest IH]; intros idx agg w Hk.
  - exists 0. split; [lia|]. simpl. now rewrite app_nil_r.
  - cbn [validate_loop]. unfold bindp.
    destruct (validate_iteration epoch log_interval k idx s agg w)
      as [w1 r] eqn:E.
    destruct (validate_iteration_spec _ _ _ _ E) as (_ & Hc & _ & Hb & _).
    destruct r as [[agg' b]|e].
    + rewrite (Hb agg' b eq_refl). simpl.
      destruct (Z.eqb_spec (Z.of_nat idx) k) as [Heq|Hne].
      * exists 1. split; [lia|]. simpl. now rewrite Hc.
      * destruct (IH (S idx) agg' w1) as (n & Hn & Hcalls); [lia|].
        exists (S n). split; [lia|].
        rewrite Hcalls, Hc, <- app_assoc. reflexivity.
    + exists 1. split; [lia|]. simpl. now rewrite Hc.
Qed.
End Validation.

(** Valid inputs are among the samples the builder hands back pools for. *)
Lemma valid_input_yields_pools {D : Domain} {C : Collaborators}
      (m : model_state params) (s : sample image) :
  valid_input s (model_call m (s_image s)) = true -> yields_pools m s.
Proof.
  intros H.
  destruct (@create_triplet_pools_valid scalar image s _ H) as (p & Hp & _).
  now exists p.
Qed.

Lemma validate_unfold {D : Domain} {C : Collaborators} (epoch : nat)
      (data : list (sample image)) (log_interval k : Z) (w : world) :
  validate epoch data log_interval k w =
  validate_loop epoch log_interval k 0 data (fzero, fzero)
                (set_model (nn_eval (w_model w)) w).
Proof. reflexivity. Qed.

(** What the cap does on the runs in which no pass raises.  With a cap
    [0 <= k < N] on a data loader of [N] samples, the validation loop never
    calls the network past the sample of index [k]; and when the log interval
    is not zero and the builder hands back pools for the samples of index 0
    to [k], the loop calls the network on exactly these [k + 1] samples, in
    order, and is then left by [break]. *)
Lemma validation_cap (D : Domain) (C : Collaborators) (epoch : nat)
        (data : list (sample image)) (log_interval k : Z) (w : world) :
  (0 <= k < Z.of_nat (length data))%Z ->
  (exists n,
      n <= Z.to_nat k + 1
      /\ w_calls (fst (validate epoch data log_interval k w)) =
         w_calls w ++ map (@s_image image) (firstn n data))
  /\ (log_interval <> 0%Z ->
      Forall (yields_pools (nn_eval (w_model w))) (firstn (Z.to_nat k + 1) data) ->
      snd (validate epoch data log_interval k w) = Ok Broke
      /\ w_calls (fst (validate epoch data log_interval k w)) =
         w_calls w ++ map (@s_image image) (firstn (Z.to_nat k + 1) data)
      /\ length (firstn (Z.to_nat k + 1) data) = Z.to_nat k + 1).
Proof.
  intros Hk. rewrite validate_unfold. split.
  - destruct (@validate_loop_at_most D C epoch log_interval k data 0 (fzero, fzero)
                (set_model (nn_eval (w_model w)) w)) as (n & Hn & Hc); [lia|].
    exists n. split; [lia|]. exact Hc.
  - intros Hli HF.
    destruct (@validate_loop_breaks D C epoch log_interval k data 0 (fzero, fzero)
                (set_model (nn_eval (w_model w)) w)) as (w' & Hw' & Hc).
    + simpl. lia.
    + exact Hli.
    + rewrite Nat.sub_0_r. exact HF.
    + rewrite Hw'. simpl. rewrite Hc, Nat.sub_0_r.
      split; [reflexivity|]. split; [reflexivity|].
      rewrite length_firstn. lia.
Qed.

Lemma validation_cap_witness :
  snd (validate (C := Toy.collaborators) 0
                [Toy.good_sample; Toy.good_sample; Toy.good_sample] 2 1 Toy.world0)
  = Ok Broke
  /\ length (w_calls (fst (validate (C := Toy.collaborators) 0
                [Toy.good_sample; Toy.good_sample; Toy.good_sample] 2 1 Toy.world0)))
     = 2.
Proof.
  destruct (@validation_cap Toy.domain Toy.collaborators 0
              [Toy.good_sample; Toy.good_sample; Toy.good_sample] 2%Z 1%Z
              Toy.world0) as [_ H].
  - simpl. lia.
  - destruct H as (Hb & Hc & _).
    + discriminate.
    + repeat constructor; eexists; reflexivity.
    + split; [exact Hb|]. rewrite Hc. reflexivity.
Defined.

(** What a cap out of reach does on the runs in which no pass raises.  With
    a cap [k >= N] on a data loader of [N] samples, and with the default cap
    -1, the [break] of the validation loop is never taken; and when the log
    interval is not zero and the builder hands back pools for every sample,
    the loop calls the network on all [N] samples, in order, and is left
    because the data loader ran out. *)
Lemma validation_exhausts (D : Domain) (C : Collaborators) (epoch : nat)
        (data : list (sample image)) (log_interval k : Z) (w : world) :
  (Z.of_nat (length data) <= k)%Z \/ k = default_num_val_samples_to_evaluate ->
  snd (validate epoch data log_interval k w) <> Ok Broke
  /\ (log_interval <> 0%Z ->
      Forall (yields_pools (nn_eval (w_model w))) data ->
      snd (validate epoch data log_interval k w) = Ok Exhausted
      /\ w_calls (fst (validate epoch data log_interval k w)) =
         w_calls w ++ map (@s_image image) data).
Proof.
  intros Hk. rewrite validate_unfold.
  assert (Hk' : (k < Z.of_nat 0 \/ Z.of_nat (0 + length data) <= k)%Z).
  { unfold default_num_val_samples_to_evaluate in Hk. simpl. lia. }
  split.
  - now apply validate_loop_no_break.
  - intros Hli HF.
    destruct (@validate_loop_exhausts D C epoch log_interval k data 0 (fzero, fzero)
                (set_model (nn_eval (w_model w)) w) Hk' Hli HF)
      as (w' & Hw' & Hc).
    rewrite Hw'. simpl. split; [reflexivity | exact Hc].
Qed.

Lemma validation_exhausts_witness :
  snd (validate (C := Toy.collaborators) 0
                [Toy.good_sample; Toy.good_sample; Toy.good_sample] 2
                default_num_val_samples_to_evaluate Toy.world0)
  = Ok Exhausted
  /\ snd (validate (C := Toy.collaborators) 0
                   [Toy.good_sample; Toy.good_sample; Toy.good_sample] 2 3
                   Toy.world0)
     = Ok Exhausted.
Proof.
  split.
  - destruct (@validation_exhausts Toy.domain Toy.collaborators 0
                [Toy.good_sample; Toy.good_sample; Toy.good_sample] 2%Z
                default_num_val_samples_to_evaluate Toy.world0) as [_ H].
    + right. reflexivity.
    + apply H; [discriminate|]. repeat constructor; eexists; reflexivity.
  - destruct (@validation_exhausts Toy.domain Toy.collaborators 0
                [Toy.good_sample; Toy.good_sample; Toy.good_sample] 2%Z
                3%Z Toy.world0) as [_ H].
    + left. simpl. lia.
    + apply H; [discriminate|]. repeat constructor; eexists; reflexivity.
Defined.

(** A sample the builder rejects, met before the loop could break, ends the
    validation loop by the [TypeError] of the unpacking: the network has been
    called on the samples before it and on it, and on nothing after it. *)
Lemma validate_loop_raises_at_rejected {D : Domain} {C : Collaborators}
      (epoch : nat) (log_interval k : Z) (pre : list (sample image))
      (s : sample image) (post : list (sample image)) (idx : nat)
      (agg : float * float) (w : world) :
  log_interval <> 0%Z ->
  Forall (yields_pools (w_model w)) pre ->
  create_triplet_pools s (model_call (w_model w) (s_image s)) = Ok None ->
  (k < Z.of_nat idx \/ Z.of_nat (idx + length pre) <= k)%Z ->
  exists w',
    validate_loop epoch log_interval k idx (pre ++ s :: post) agg w
    = (w', Raise TypeError)
    /\ w_calls w' = w_calls w ++ map (@s_image image) pre ++ [s_image s].
Proof.
  intros Hli HF Hs. revert idx agg w HF Hs.
  induction pre as [|q pre IH]; intros idx agg w HF Hs Hk.
  - cbn [app validate_loop].
    unfold bindp, validate_iteration, bindp, call_model, lift. simpl.
    rewrite Hs. simpl. eexists. split; reflexivity.
  - cbn [app validate_loop]. unfold bindp.
    destruct (validate_iteration epoch log_interval k idx q agg w)
      as [w1 r] eqn:E.
    destruct (@validate_iteration_spec D C epoch log_interval k idx q agg w w1 r E)
      as (Hm & Hc & _ & _ & Hok).
    inversion HF as [|? ? Hq Hpre]; subst.
    destruct (Hok Hli Hq) as (agg' & ->). simpl.
    destruct (Z.eqb_spec (Z.of_nat idx) k) as [Heq|Hne];
      [simpl in Hk; lia|].
    destruct (IH (S idx) agg' w1) as (w' & Hw' & Hcalls).
    + now rewrite Hm.
    + now rewrite Hm.
    + simpl in Hk. lia.
    + exists w'. split; [exact Hw'|].
      rewrite Hcalls, Hc, <- !app_assoc. reflexivity.
Qed.

(** C7, as the code behaves.  With a cap [0 <= k < N] on a data loader of
    [N] samples, a degenerate sample at an index [i <= k], the samples before
    it yielding pools, keeps [validate] from processing the samples of index 0
    to [k] and stopping there: the loop is left by the [TypeError] of the
    unpacking, not by [break], after the network has been called on the
    samples of index 0 to [i] only. *)
Theorem validation_cap_degenerate_sample (D : Domain) (C : Collaborators)
        (epoch : nat) (pre : list (sample image)) (s : sample image)
        (post : list (sample image)) (log_interval k : Z) (w : world) :
  log_interval <> 0%Z ->
  Forall (yields_pools (nn_eval (w_model w))) pre ->
  wf_annotation (s_annotation s) = true ->
  wf_embeddings (model_call (nn_eval (w_model w)) (s_image s)) = true ->
  degenerate (s_annotation s) = true ->
  (Z.of_nat (length pre) <= k < Z.of_nat (length (pre ++ s :: post)))%Z ->
  snd (validate epoch (pre ++ s :: post) log_interval k w) = Raise TypeError
  /\ snd (validate epoch (pre ++ s :: post) log_interval k w) <> Ok Broke
  /\ w_calls (fst (validate epoch (pre ++ s :: post) log_interval k w))
     = w_calls w ++ map (@s_image image) pre ++ [s_image s].
Proof.
  intros Hli HF Wann Wemb Hdeg Hk. rewrite validate_unfold.
  destruct (@validate_loop_raises_at_rejected D C epoch log_interval k pre s post
              0 (fzero, fzero) (set_model (nn_eval (w_model w)) w))
    as (w' & Hw' & Hcalls).
  - exact Hli.
  - exact HF.
  - exact (create_triplet_pools_degenerate s _ Wann Wemb Hdeg).
  - simpl. lia.
  - rewrite Hw'. simpl. split; [reflexivity|]. split; [discriminate|exact Hcalls].
Qed.

Lemma validation_cap_degenerate_sample_witness :
  snd (validate (C := Toy.collaborators) 0
                [Toy.full_pool_sample; Toy.good_sample; Toy.good_sample] 2 1
                Toy.world0)
  = Raise TypeError
  /\ length (w_calls (fst (validate (C := Toy.collaborators) 0
                [Toy.full_pool_sample; Toy.good_sample; Toy.good_sample] 2 1
                Toy.world0)))
     = 1.
Proof.
  destruct (@validation_cap_degenerate_sample Toy.domain Toy.collaborators 0
              [] Toy.full_pool_sample [Toy.good_sample; Toy.good_sample]
              2%Z 1%Z Toy.world0) as (H1 & _ & H2).
  - discriminate.
  - constructor.
  - reflexivity.
  - reflexivity.
  - reflexivity.
  - simpl. lia.
  - split; [exact H1|].
    etransitivity; [exact (f_equal (@length _) H2) | reflexivity].
Defined.

(** C8, as the code behaves.  With a cap [k >= N] on a data loader of [N]
    samples, and with the default cap -1, a degenerate sample, the samples
    before it yielding pools, keeps [validate] from exhausting the data
    loader: the loop is left by the [TypeError] of the unpacking after the
    network has been called on the samples up to the degenerate one, and the
    samples after it are never processed. *)
Theorem validation_exhausts_degenerate_sample (D : Domain) (C : Collaborators)
        (epoch : nat) (pre : list (sample image)) (s : sample image)
        (post : list (sample image)) (log_interval k : Z) (w : world) :
  log_interval <> 0%Z ->
  Forall (yields_pools (nn_eval (w_model w))) pre ->
  wf_annotation (s_annotation s) = true ->
  wf_embeddings (model_call (nn_eval (w_model w)) (s_image s)) = true ->
  degenerate (s_annotation s) = true ->
  (Z.of_nat (length (pre ++ s :: post)) <= k)%Z
  \/ k = default_num_val_samples_to_evaluate ->
  snd (validate epoch (pre ++ s :: post) log_interval k w) = Raise TypeError
  /\ snd (validate epoch (pre ++ s :: post) log_interval k w) <> Ok Exhausted
  /\ w_calls (fst (validate epoch (pre ++ s :: post) log_interval k w))
     = w_calls w ++ map (@s_image image) pre ++ [s_image s].
Proof.
  intros Hli HF Wann Wemb Hdeg Hk. rewrite validate_unfold.
  destruct (@validate_loop_raises_at_rejected D C epoch log_interval k pre s post
              0 (fzero, fzero) (set_model (nn_eval (w_model w)) w))
    as (w' & Hw' & Hcalls).
  - exact Hli.
  - exact HF.
  - exact (create_triplet_pools_degenerate s _ Wann Wemb Hdeg).
  - unfold default_num_val_samples_to_evaluate in Hk.
    rewrite length_app in Hk. simpl in *. lia.
  - rewrite Hw'. simpl. split; [reflexivity|]. split; [discriminate|exact Hcalls].
Qed.

Lemma validation_exhausts_degenerate_sample_witness :
  snd (validate (C := Toy.collaborators) 0
                [Toy.good_sample; Toy.empty_anchor_sample; Toy.good_sample] 2 3
                Toy.world0)
  = Raise TypeError
  /\ snd (validate (C := Toy.collaborators) 0
                   [Toy.good_sample; Toy.empty_anchor_sample; Toy.good_sample] 2
                   default_num_val_samples_to_evaluate Toy.world0)
     = Raise TypeError
  /\ length (w_calls (fst (validate (C := Toy.collaborators) 0
                [Toy.good_sample; Toy.empty_anchor_sample; Toy.good_sample] 2 3
                Toy.world0)))
     = 2.
Proof.
  destruct (@validation_exhausts_degenerate_sample Toy.domain Toy.collaborators 0
              [Toy.good_sample] Toy.empty_anchor_sample [Toy.good_sample]
              2%Z 3%Z Toy.world0) as (H1 & _ & H2).
  - discriminate.
  - repeat constructor; eexists; reflexivity.
  - reflexivity.
  - reflexivity.
  - reflexivity.
  - left. simpl. lia.
  - destruct (@validation_exhausts_degenerate_sample Toy.domain Toy.collaborators 0
                [Toy.good_sample] Toy.empty_anchor_sample [Toy.good_sample]
                2%Z default_num_val_samples_to_evaluate Toy.world0) as (H3 & _).
    + discriminate.
    + repeat constructor; eexists; reflexivity.
    + reflexivity.
    + reflexivity.
    + reflexivity.
    + right. reflexivity.
    + split; [exact H1|]. split; [exact H3|].
      etransitivity; [exact (f_equal (@length _) H2) | reflexivity].
Defined.

(** C1, as the code behaves.  A degenerate sample at the head of the data
    loader makes [validate] unpack [None]: the loop is left by a [TypeError]
    that nothing catches, where the training loop skips the very same sample
    and goes on. *)
Theorem validate_degenerate_raises (D : Domain) (C : Collaborators) (epoch : nat)
        (s : sample image) (rest : list (sample image))
        (log_interval k : Z) (w : world) :
  wf_annotation (s_annotation s) = true ->
  wf_embeddings (model_call (nn_eval (w_model w)) (s_image s)) = true ->
  wf_embeddings (model_call (w_model w) (s_image s)) = true ->
  degenerate (s_annotation s) = true ->
  snd (validate epoch (s :: rest) log_interval k w) = Raise TypeError
  /\ forall checkpoint_interval agg,
      snd (train_iteration epoch log_interval checkpoint_interval 0 s agg w) = Ok agg.
Proof.
  intros Wann Wval Wtrain Hdeg. split.
  - rewrite validate_unfold. cbn [validate_loop].
    unfold bindp, validate_iteration, bindp, call_model, lift. simpl.
    now rewrite (create_triplet_pools_degenerate s _ Wann Wval Hdeg).
  - intros checkpoint_interval agg.
    rewrite train_iteration_skip; [reflexivity|].
    exact (create_triplet_pools_degenerate s _ Wann Wtrain Hdeg).
Qed.

Lemma validate_degenerate_raises_witness :
  snd (validate (C := Toy.collaborators) 0
                [Toy.empty_anchor_sample; Toy.good_sample] 10 10 Toy.world0)
  = Raise TypeError
  /\ snd (train (C := Toy.collaborators) 0
                [Toy.empty_anchor_sample; Toy.good_sample] 10 10 Toy.world0)
     = Ok tt.
Proof.
  split.
  - apply (@validate_degenerate_raises Toy.domain Toy.collaborators 0
             Toy.empty_anchor_sample [Toy.good_sample] 10%Z 10%Z Toy.world0);
      reflexivity.
  - reflexivity.
Defined.

(** ** The meter *)

Section Preservation.
Context {D : Domain}.
Variable P : world -> Prop.

Lemma preserves_ret {A : Type} (a : A) : preserves P (ret a).
Proof. intros w H. exact H. Qed.

Lemma preserves_lift {A : Type} (r : result A) : preserves P (lift r).
Proof. intros w H. exact H. Qed.

Lemma preserves_bindp {A B : Type} (m : prog A) (f : A -> prog B) :
  preserves P m -> (forall a, preserves P (f a)) -> preserves P (bindp m f).
Proof.
  intros Hm Hf w H. unfold bindp. specialize (Hm w H).
  destruct (m w) as [w1 [a|e]]; simpl in *; [now apply Hf | exact Hm].
Qed.

Lemma preserves_modify (f : world -> world) :
  (forall w, P w -> P (f w)) -> preserves P (modify f).
Proof. intros Hf w H. now apply Hf. Qed.

Lemma preserves_when (b : bool) (m : prog unit) :
  preserves P m -> preserves P (when b m).
Proof. intros Hm. destruct b; [exact Hm | apply preserves_ret]. Qed.
End Preservation.

Section Meter.
Context {D : Domain} {C : Collaborators}.
Variable m0 : meter.
Variable base : list (string * float * Z).

Let Inv : world -> Prop := meter_untouched m0 base.

(** A step that leaves the meter and the summary writer alone. *)
Lemma quiet_step (f : world -> world) :
  (forall w, w_meter (f w) = w_meter w) ->
  (forall w, w_scalars (f w) = w_scalars w) ->
  preserves Inv (modify f).
Proof.
  intros Hm Hs. apply preserves_modify. intros w [H1 H2].
  split; [now rewrite Hm | now rewrite Hs].
Qed.

(** A step that writes entries which report the meter wherever they carry
    a loss tag. *)
Lemma scalar_step (l : world -> list (string * float * Z)) :
  (forall w, Forall (meter_entry_ok (w_meter w)) (l w)) ->
  preserves Inv (modify (fun w => add_scalars (l w) w)).
Proof.
  intros Hl. apply preserves_modify. intros w [H1 (new & H2 & H3)].
  split; [exact H1|]. exists (new ++ l w). simpl. split.
  - now rewrite H2, app_assoc.
  - apply Forall_app. split; [exact H3|]. rewrite <- H1. apply Hl.
Qed.

Lemma call_model_meter (frames : image) : preserves Inv (call_model frames).
Proof. intros w H. exact H. Qed.

Lemma on_model_meter (f : model_state params -> model_state params) :
  preserves Inv (on_model f).
Proof. apply quiet_step; reflexivity. Qed.

Lemma backpropagation_meter (s : sample image) : preserves Inv (backpropagation s).
Proof.
  unfold backpropagation.
  repeat (apply preserves_bindp; [|intros _]);
    apply quiet_step; intros w; try reflexivity;
    destruct (optimizer_step _ _ _); reflexivity.
Qed.

Lemma train_logging_meter (epoch idx : nat) (fg bg : float) :
  preserves Inv (train_logging epoch idx fg bg).
Proof.
  unfold train_logging.
  repeat (apply preserves_bindp; [|intros _]).
  - apply quiet_step; reflexivity.
  - apply quiet_step; reflexivity.
  - apply (scalar_step
             (fun w => [("train_loss"%string, fst (meter_value (w_meter w)),
                         (Z.of_nat idx + 1)%Z)])).
    intros w. constructor; [|constructor]. intros _. reflexivity.
  - apply (scalar_step
             (fun w => map (fun io => (append "train_lr_group" (str_of_nat (fst io)),
                                       snd io, (Z.of_nat idx + 1)%Z))
                           (enumerate_from 0 (param_groups_lr (w_optim w))))).
    intros w. apply Forall_map. apply Forall_forall. intros io _ H.
    discriminate H.
Qed.

Lemma checkpoint_step_meter (epoch idx : nat) :
  preserves Inv (checkpoint_step epoch idx).
Proof.
  unfold checkpoint_step.
  repeat (apply preserves_bindp; [|intros _]);
    try apply on_model_meter; apply quiet_step; reflexivity.
Qed.

Lemma train_iteration_meter (epoch : nat) (li ci : Z) (idx : nat)
      (s : sample image) (agg : float * float) :
  preserves Inv (train_iteration epoch li ci idx s agg).
Proof.
  unfold train_iteration.
  apply preserves_bindp; [apply call_model_meter|intros embeddings].
  apply preserves_bindp; [apply preserves_lift|intros [p|]].
  - apply preserves_bindp; [apply backpropagation_meter|intros _].
    apply preserves_bindp; [apply preserves_lift|intros r].
    apply preserves_bindp;
      [apply preserves_when, train_logging_meter|intros _].
    apply preserves_bindp; [apply preserves_lift|intros r'].
    apply preserves_bindp;
      [apply preserves_when, checkpoint_step_meter|intros _].
    apply preserves_ret.
  - apply preserves_bindp; [apply quiet_step; reflexivity|intros _].
    apply preserves_ret.
Qed.

Lemma train_meter (epoch : nat) (data : list (sample image)) (li ci : Z) :
  preserves Inv (train epoch data li ci).
Proof.
  unfold train. apply preserves_bindp; [|intros _; apply preserves_ret].
  generalize 0 as idx. generalize (@fzero D C, @fzero D C) as agg.
  induction data as [|s rest IH]; intros agg idx; cbn [train_loop].
  - apply preserves_ret.
  - apply preserves_bindp; [apply train_iteration_meter|intros agg'].
    apply IH.
Qed.

Lemma validate_logging_meter (epoch idx : nat) (fg bg : float) :
  preserves Inv (validate_logging epoch idx fg bg).
Proof.
  unfold validate_logging.
  repeat (apply preserves_bindp; [|intros _]).
  - apply quiet_step; reflexivity.
  - apply quiet_step; reflexivity.
  - apply (scalar_step
             (fun w => [("val_loss"%string, fst (meter_value (w_meter w)),
                         (Z.of_nat idx + 1)%Z)])).
    intros w. constructor; [|constructor]. intros _. reflexivity.
Qed.

Lemma validate_meter (epoch : nat) (data : list (sample image)) (li k : Z) :
  preserves Inv (validate epoch data li k).
Proof.
  unfold validate. apply preserves_bindp; [apply on_model_meter|intros _].
  generalize 0 as idx. generalize (@fzero D C, @fzero D C) as agg.
  induction data as [|s rest IH]; intros agg idx; cbn [validate_loop].
  - apply preserves_ret.
  - apply preserves_bindp.
    + unfold validate_iteration.
      apply preserves_bindp; [apply call_model_meter|intros embeddings].
      apply preserves_bindp; [apply preserves_lift|intros pools].
      apply preserves_bindp; [apply preserves_lift|intros p].
      apply preserves_bindp; [apply preserves_lift|intros r].
      apply preserves_bindp;
        [apply preserves_when, validate_logging_meter|intros _].
      apply preserves_ret.
    + intros r. destruct (snd r); [apply preserves_ret | apply IH].
Qed.

Lemma main_epochs_meter (epochs : list (list (sample image) * list (sample image)))
      (epoch : nat) (li ci k : Z) :
  preserves Inv (main_epochs epoch epochs li ci k).
Proof.
  revert epoch. induction epochs as [|[tr va] rest IH]; intros epoch;
    cbn [main_epochs].
  - apply preserves_ret.
  - apply preserves_bindp; [apply train_meter|intros _].
    apply preserves_bindp; [apply validate_meter|intros _].
    apply IH.
Qed.
End Meter.

Lemma meter_untouched_start {D : Domain} {C : Collaborators} (w : world) :
  meter_untouched (w_meter w) (w_scalars w) w.
Proof.
  split; [reflexivity|]. exists []. split; [now rewrite app_nil_r | constructor].
Qed.

(** From a world without entries, every value under a loss tag is what the
    meter reports. *)
Lemma meter_untouched_tagged {D : Domain} {C : Collaborators} (m0 : meter)
      (w : world) (tag : string) (x : float) :
  meter_untouched m0 [] w -> loss_tag tag = true ->
  In x (scalars_tagged tag w) -> x = fst (meter_value m0).
Proof.
  intros [_ (new & Hs & Hnew)] Htag Hin. simpl in Hs.
  unfold scalars_tagged in Hin. rewrite Hs in Hin.
  apply in_map_iff in Hin. destruct Hin as (e & <- & He).
  apply filter_In in He. destruct He as [He Ht].
  rewrite Forall_forall in Hnew. apply (Hnew e He).
  apply String.eqb_eq in Ht. now rewrite Ht.
Qed.

(** C10.  Neither loop feeds the meter: after [train] and after [validate],
    however they end, the meter is the one they were given and every entry
    they wrote under ['train_loss'] or ['val_loss'] holds the value that
    meter reports; over all the epochs of [main], which starts from a fresh
    meter, every such entry holds the initial value of the meter, whatever
    the loss functions are, so two runs with different losses write the same
    values. *)
Theorem meter_never_fed (D : Domain) (C : Collaborators) :
  (forall epoch data log_interval checkpoint_interval w,
      meter_untouched (w_meter w) (w_scalars w)
                      (fst (train epoch data log_interval checkpoint_interval w)))
  /\ (forall epoch data log_interval k w,
         meter_untouched (w_meter w) (w_scalars w)
                         (fst (validate epoch data log_interval k w)))
  /\ (forall epochs log_interval checkpoint_interval k pretrained g o l v,
         let w' := fst (main_epochs (C := with_losses C l v) 0 epochs log_interval
                                    checkpoint_interval k
                                    (initial_world pretrained g o)) in
         w_meter w' = meter_new 20
         /\ forall x,
             In x (scalars_tagged "train_loss" w')
             \/ In x (scalars_tagged "val_loss" w') ->
             x = fst (meter_value (meter_new 20)))
  /\ (forall epochs log_interval checkpoint_interval k pretrained g o l v l' v' x y,
         let w1 := fst (main_epochs (C := with_losses C l v) 0 epochs log_interval
                                    checkpoint_interval k
                                    (initial_world pretrained g o)) in
         let w2 := fst (main_epochs (C := with_losses C l' v') 0 epochs log_interval
                                    checkpoint_interval k
                                    (initial_world pretrained g o)) in
         In x (scalars_tagged "train_loss" w1 ++ scalars_tagged "val_loss" w1) ->
         In y (scalars_tagged "train_loss" w2 ++ scalars_tagged "val_loss" w2) ->
         x = y).
Proof.
  assert (Hmain : forall epochs log_interval checkpoint_interval k pretrained g o l v,
             meter_untouched (C := C) (meter_new 20) []
               (fst (main_epochs (C := with_losses C l v) 0 epochs log_interval
                                 checkpoint_interval k
                                 (initial_world pretrained g o)))).
  { intros.
    apply (@main_epochs_meter D (with_losses C l v) (meter_new 20) []).
    apply (@meter_untouched_start D (with_losses C l v)
                                  (initial_world pretrained g o)). }
  assert (Hval : forall epochs log_interval checkpoint_interval k pretrained g o l v x,
             In x (scalars_tagged "train_loss"
                     (fst (main_epochs (C := with_losses C l v) 0 epochs log_interval
                                       checkpoint_interval k
                                       (initial_world pretrained g o)))
                   ++ scalars_tagged "val_loss"
                     (fst (main_epochs (C := with_losses C l v) 0 epochs log_interval
                                       checkpoint_interval k
                                       (initial_world pretrained g o)))) ->
             x = fst (meter_value (meter_new 20))).
  { intros epochs li ci k pretrained g o l v x Hin.
    apply in_app_or in Hin.
    destruct Hin as [Hin|Hin];
      eapply meter_untouched_tagged; try exact Hin; try apply Hmain; reflexivity. }
  split; [|split; [|split]].
  - intros. apply train_meter, meter_untouched_start.
  - intros. apply validate_meter, meter_untouched_start.
  - intros epochs li ci k pretrained g o l v w'. split.
    + apply (Hmain epochs li ci k pretrained g o l v).
    + intros x Hx. apply (Hval epochs li ci k pretrained g o l v x).
      apply in_or_app. exact Hx.
  - intros epochs li ci k pretrained g o l v l' v' x y w1 w2 Hx Hy.
    rewrite (Hval _ _ _ _ _ _ _ _ _ _ Hx), (Hval _ _ _ _ _ _ _ _ _ _ Hy).
    reflexivity.
Qed.

Lemma meter_never_fed_witness :
  Forall (fun x => x = fst (@meter_value Toy.domain Toy.collaborators
                              (@meter_new Toy.domain Toy.collaborators 20)))
         (scalars_tagged "train_loss"
            (fst (main_epochs
                    (C := with_losses Toy.collaborators
                                      (fun _ _ _ => 1%Z) (fun _ _ _ => 2%Z))
                    0 [([Toy.good_sample; Toy.good_sample], [Toy.good_sample])]
                    1 1 5 (initial_world (C := Toy.collaborators) 1%Z 0%Z 0%Z)))).
Proof.
  pose proof (@meter_never_fed Toy.domain Toy.collaborators) as H0.
  destruct H0 as (_ & _ & H & _).
  pose proof (H [([Toy.good_sample; Toy.good_sample], [Toy.good_sample])]
                  1%Z 1%Z 5%Z 1%Z 0%Z 0%Z
                  (fun _ _ _ => 1%Z) (fun _ _ _ => 2%Z)) as H1.
  cbv zeta in H1.
  destruct H1 as [_ H2].
  apply Forall_forall. intros x Hx. apply H2. left. exact Hx.
Defined.

(** * Further properties *)

(** ** What the builder returns *)

Lemma t3_get_length {A : Type} (e : tensor3 A) (x y : nat) (row : list A) :
  wf3 e = true -> t3_get e x y = Ok row -> length row = t3_d0 e.
Proof.
  intros W H. apply wf3_iff in W. destruct W as [L _].
  unfold t3_get in H. destruct (_ && _); [|discriminate].
  apply mapM_length in H. congruence.
Qed.

(** X1.  On well-shaped masks and fields, the masks no larger than the
    fields, the builder raises nothing, and it returns [None] exactly when
    one of the four index sets is empty. *)
Theorem builder_skips_iff_degenerate (A I : Type) (s : sample I)
        (embeddings : list (tensor3 A)) :
  wf_annotation (s_annotation s) = true ->
  wf_embeddings embeddings = true ->
  masks_fit (s_annotation s) embeddings = true ->
  exists r,
    create_triplet_pools s embeddings = Ok r
    /\ (r = None <-> degenerate (s_annotation s) = true).
Proof.
  intros Wann Wemb Hfit.
  destruct (degenerate (s_annotation s)) eqn:Hd.
  - exists None. split; [|tauto].
    now apply create_triplet_pools_degenerate.
  - destruct (@create_triplet_pools_valid A I s embeddings) as (p & Hp & _).
    + unfold valid_input. now rewrite Wann, Wemb, Hfit, Hd.
    + exists (Some p). split; [exact Hp|]. split; discriminate.
Qed.

Lemma builder_skips_iff_degenerate_witness :
  exists r,
    create_triplet_pools Toy.full_pool_sample Toy.frames = Ok r
    /\ (r = None <-> degenerate (s_annotation Toy.full_pool_sample) = true).
Proof.
  apply builder_skips_iff_degenerate; reflexivity.
Defined.

Lemma gather_row_lengths {A : Type} (e : tensor3 A) (indices : list (nat * nat))
      (b : batch A) :
  wf3 e = true -> gather e indices = Ok b ->
  Forall (fun row => length row = t3_d0 e) b.
Proof.
  intros W H. apply gather_rows in H.
  induction H as [|xy row idx b Hrow _ IH]; constructor; auto.
  eapply t3_get_length; eauto.
Qed.

(** X2.  Whenever the builder returns pools for well-shaped inputs, every
    row of each of the six batches has one scalar per channel of the
    embedding fields: the batches are [n x D]. *)
Theorem batches_have_embedding_width (A I : Type) (s : sample I)
        (a f1 f2 : tensor3 A) (p : triplet_pools A) :
  wf_annotation (s_annotation s) = true ->
  wf_embeddings [a; f1; f2] = true ->
  create_triplet_pools s [a; f1; f2] = Ok (Some p) ->
  Forall (fun b => Forall (fun row => length row = t3_d0 a) b)
         [fg_embedding_a p; fg_positive_pool p; fg_negative_pool p;
          bg_embedding_a p; bg_positive_pool p; bg_negative_pool p].
Proof.
  intros Wann Wemb H.
  destruct (@create_triplet_pools_role_swap A I s _ p H) as [Efn Ebn].
  destruct (@create_triplet_pools_some A I s a f1 f2 p Wann Wemb H)
    as (apm & epp & _ & Hepp & G1 & G2 & G3 & G4).
  destruct (@wf_embeddings_inv A _ Wemb)
    as (a' & g1 & g2 & E & Wa & W1 & W2 & (A0 & _) & (B0 & B1 & _)).
  inversion E; subst a' g1 g2.
  destruct (@pool_field_ok A a f1 f2 Wemb) as (epp' & Hepp' & Wepp & _).
  rewrite Hepp in Hepp'. inversion Hepp'; subst epp'.
  assert (D0 : t3_d0 epp = t3_d0 a).
  { unfold cat3_dim2 in Hepp. destruct (_ && _); [|discriminate].
    inversion Hepp. simpl. congruence. }
  rewrite Efn, Ebn.
  pose proof (@gather_row_lengths A a _ _ Wa G1) as R1.
  pose proof (@gather_row_lengths A a _ _ Wa G2) as R2.
  pose proof (@gather_row_lengths A epp _ _ Wepp G3) as R3.
  pose proof (@gather_row_lengths A epp _ _ Wepp G4) as R4.
  rewrite D0 in R3, R4.
  repeat constructor; assumption.
Qed.

Lemma batches_have_embedding_width_witness :
  exists p,
    create_triplet_pools Toy.good_sample Toy.frames = Ok (Some p)
    /\ Forall (fun b => Forall (fun row => length row = 2) b)
              [fg_embedding_a p; fg_positive_pool p; fg_negative_pool p;
               bg_embedding_a p; bg_positive_pool p; bg_negative_pool p].
Proof.
  eexists. split; [reflexivity|].
  exact (@batches_have_embedding_width Z _ Toy.good_sample
           (Toy.field 1) (Toy.field 2) (Toy.field 3) _ eq_refl eq_refl eq_refl).
Defined.

Lemma filter_split_length {A : Type} (f : A -> bool) (l : list A) :
  length (filter f l) + length (filter (fun a => negb (f a)) l) = length l.
Proof.
  induction l as [|a l IH]; simpl; [reflexivity|].
  destruct (f a); simpl; lia.
Qed.

Lemma concat_length_uniform {A : Type} (cols : nat) (d : list (list A)) :
  Forall (fun r => length r = cols) d -> length (concat d) = length d * cols.
Proof.
  induction 1 as [|r d Hr _ IH]; simpl; [reflexivity|].
  rewrite length_app, IH, Hr. reflexivity.
Qed.

(** Every pixel of a mask is foreground or background, never both. *)
Lemma foreground_background_total (m : mask) :
  wf2 m = true ->
  count_pixels is_foreground m + count_pixels is_background m
  = t2_rows m * t2_cols m.
Proof.
  intros W. apply wf_rows_iff in W. destruct W as [L F].
  unfold count_pixels, pixels.
  rewrite <- L, <- (concat_length_uniform F).
  rewrite <- (filter_split_length is_background (concat (t2_data m))).
  rewrite Nat.add_comm. reflexivity.
Qed.

(** X3.  On a valid input the two anchor batches together hold one row per
    pixel of the anchor mask, and the two positive pools together one row per
    pixel of the two pool masks: each pixel lands in exactly one batch of its
    pair. *)
Theorem batches_partition_the_pixels (A I : Type) (s : sample I)
        (embeddings : list (tensor3 A)) :
  valid_input s embeddings = true ->
  exists p,
    create_triplet_pools s embeddings = Ok (Some p)
    /\ length (fg_embedding_a p) + length (bg_embedding_a p)
       = t3_d1 (s_annotation s) * t3_d2 (s_annotation s)
    /\ length (fg_positive_pool p) + length (bg_positive_pool p)
       = 2 * (t3_d1 (s_annotation s) * t3_d2 (s_annotation s)).
Proof.
  intros Hvalid.
  destruct (@create_triplet_pools_valid A I s embeddings Hvalid)
    as (p & Hp & L1 & L2 & L3 & L4 & _).
  exists p. split; [exact Hp|].
  unfold valid_input in Hvalid. rewrite !andb_true_iff in Hvalid.
  destruct Hvalid as [[[Wann _] _] _].
  destruct (@wf_annotation_frame (s_annotation s) 0 Wann) as [_ W0]; [lia|].
  destruct (@wf_annotation_frame (s_annotation s) 1 Wann) as [_ W1]; [lia|].
  destruct (@wf_annotation_frame (s_annotation s) 2 Wann) as [_ W2]; [lia|].
  pose proof (foreground_background_total _ W0) as T0.
  pose proof (foreground_background_total _ W1) as T1.
  pose proof (foreground_background_total _ W2) as T2'.
  rewrite L1, L2, L3, L4.
  unfold fg_anchor_size, bg_anchor_size, fg_pool_size, bg_pool_size.
  simpl in T0, T1, T2'. split; lia.
Qed.

Lemma batches_partition_the_pixels_witness :
  exists p,
    create_triplet_pools Toy.good_sample Toy.frames = Ok (Some p)
    /\ length (fg_embedding_a p) + length (bg_embedding_a p) = 4
    /\ length (fg_positive_pool p) + length (bg_positive_pool p) = 8.
Proof.
  exact (@batches_partition_the_pixels Z _ Toy.good_sample Toy.frames eq_refl).
Defined.

(** ** Where the rows of the batches come from *)

Lemma py_getitem_Ok {A : Type} (xs : list A) (i : nat) (a : A) :
  py_getitem xs i = Ok a <-> nth_error xs i = Some a.
Proof.
  unfold py_getitem. destruct (nth_error xs i); split; intros H;
    inversion H; reflexivity.
Qed.

Lemma py_getitem_map {A B : Type} (g : A -> B) (l : list A) (i : nat) :
  py_getitem (map g l) i = (a <- py_getitem l i ;; Ok (g a)).
Proof.
  unfold py_getitem. rewrite nth_error_map.
  now destruct (nth_error l i).
Qed.

Lemma nonzero_row_In (x y0 : nat) (row : list Z) (x' y' : nat) :
  In (x', y') (nonzero_row x y0 row) <->
  x' = x /\ y0 <= y'
  /\ exists v, nth_error row (y' - y0) = Some v /\ v <> 0%Z.
Proof.
  revert y0. induction row as [|v row IH]; intros y0; simpl.
  - split; [tauto|]. intros (_ & _ & v & H & _).
    destruct (y' - y0); discriminate.
  - rewrite in_app_iff, IH. split.
    + intros [H|(-> & Hle & v' & Hn & Hv)].
      * destruct (Z.eqb_spec v 0) as [|Hv]; [destruct H|].
        destruct H as [H|[]]. inversion H; subst.
        split; [reflexivity|]. split; [lia|].
        exists v. rewrite Nat.sub_diag. auto.
      * split; [reflexivity|]. split; [lia|]. exists v'.
        replace (y' - y0) with (S (y' - S y0)) by lia. auto.
    + intros (-> & Hle & v' & Hn & Hv).
      destruct (Nat.eq_dec y' y0) as [->|Hne].
      * left. rewrite Nat.sub_diag in Hn. simpl in Hn. inversion Hn; subst.
        destruct (Z.eqb_spec v' 0); [contradiction|]. now left.
      * right. split; [reflexivity|]. split; [lia|]. exists v'.
        replace (y' - y0) with (S (y' - S y0)) in Hn by lia. auto.
Qed.

Lemma nonzero_rows_In (x0 : nat) (rows : list (list Z)) (x' y' : nat) :
  In (x', y') (nonzero_rows x0 rows) <->
  x0 <= x'
  /\ exists row v,
      nth_error rows (x' - x0) = Some row /\ nth_error row y' = Some v /\ v <> 0%Z.
Proof.
  revert x0. induction rows as [|r rows IH]; intros x0; simpl.
  - split; [tauto|]. intros (_ & row & v & H & _).
    destruct (x' - x0); discriminate.
  - rewrite in_app_iff, nonzero_row_In, IH, Nat.sub_0_r. split.
    + intros [(-> & _ & v & Hn & Hv)|(Hle & row & v & Hr & Hn & Hv)].
      * split; [lia|]. exists r, v. rewrite Nat.sub_diag. auto.
      * split; [lia|]. exists row, v.
        replace (x' - x0) with (S (x' - S x0)) by lia. auto.
    + intros (Hle & row & v & Hr & Hn & Hv).
      destruct (Nat.eq_dec x' x0) as [->|Hne].
      * left. rewrite Nat.sub_diag in Hr. simpl in Hr. inversion Hr; subst.
        split; [reflexivity|]. split; [lia|]. eauto.
      * right. split; [lia|]. exists row, v.
        replace (x' - x0) with (S (x' - S x0)) in Hr by lia. auto.
Qed.

(** [torch.nonzero] lists exactly the coordinates of the mask that hold a
    non-zero value. *)
Lemma nonzero_In (m : mask) (x y : nat) :
  wf2 m = true ->
  (In (x, y) (nonzero m) <-> exists v, t2_get m x y = Ok v /\ v <> 0%Z).
Proof.
  intros W. apply wf_rows_iff in W. destruct W as [L F].
  rewrite Forall_forall in F.
  unfold nonzero. rewrite nonzero_rows_In, Nat.sub_0_r. unfold t2_get. split.
  - intros (_ & row & v & Hr & Hn & Hv). exists v. split; [|exact Hv].
    assert (Hx : x < t2_rows m).
    { rewrite <- L. apply nth_error_Some. congruence. }
    assert (Hy : y < t2_cols m).
    { rewrite <- (F row) by (eapply nth_error_In; eauto).
      apply nth_error_Some. congruence. }
    apply Nat.ltb_lt in Hx, Hy. rewrite Hx, Hy. simpl.
    apply py_getitem_Ok in Hr, Hn. now rewrite Hr.
  - intros (v & H & Hv). split; [lia|].
    destruct (_ && _); [|discriminate].
    apply bind_Ok in H. destruct H as (row & Hr & Hn).
    apply py_getitem_Ok in Hr, Hn. eauto.
Qed.

Lemma t2_get_eq_zero (m : mask) (x y : nat) :
  t2_get (eq_zero m) x y =
  (v <- t2_get m x y ;; Ok (if Z.eqb v 0 then 1%Z else 0%Z)).
Proof.
  unfold t2_get, eq_zero; simpl.
  destruct (_ && _); [|reflexivity].
  rewrite py_getitem_map. destruct (py_getitem (t2_data m) x); simpl;
    [apply py_getitem_map | reflexivity].
Qed.

(** [torch.nonzero(m == 0)] lists exactly the coordinates that hold zero. *)
Lemma nonzero_eq_zero_In (m : mask) (x y : nat) :
  wf2 m = true ->
  (In (x, y) (nonzero (eq_zero m)) <-> t2_get m x y = Ok 0%Z).
Proof.
  intros W. rewrite (@nonzero_In (eq_zero m) x y (@eq_zero_wf m W)), t2_get_eq_zero.
  split.
  - intros (w & H & Hw). apply bind_Ok in H. destruct H as (v & Hv & H).
    inversion H; subst. destruct (Z.eqb_spec v 0); [congruence|contradiction].
  - intros H. rewrite H. simpl. exists 1%Z. split; [reflexivity|discriminate].
Qed.

Lemma Forall2_Forall_r {A B : Type} (R : A -> B -> Prop) (Q : B -> Prop)
      (l : list A) (bs : list B) :
  Forall2 R l bs -> (forall a b, In a l -> R a b -> Q b) -> Forall Q bs.
Proof.
  induction 1 as [|a b l bs Hab _ IH]; intros H; constructor.
  - apply (H a b); [now left | exact Hab].
  - apply IH. intros a' b' Hin. apply H. now right.
Qed.

(** X4.  Whenever the builder returns pools for well-shaped inputs, every
    row of [fg_embedding_a] is the embedding vector of the anchor field at a
    pixel where the anchor mask is not zero, and every row of
    [bg_embedding_a] the vector at a pixel where it is zero. *)
Theorem anchor_rows_are_anchor_pixels (A I : Type) (s : sample I)
        (a f1 f2 : tensor3 A) (p : triplet_pools A) :
  wf_annotation (s_annotation s) = true ->
  wf_embeddings [a; f1; f2] = true ->
  create_triplet_pools s [a; f1; f2] = Ok (Some p) ->
  Forall (embeds_pixel is_foreground (frame (s_annotation s) 0) a) (fg_embedding_a p)
  /\ Forall (embeds_pixel is_background (frame (s_annotation s) 0) a) (bg_embedding_a p).
Proof.
  intros Wann Wemb H.
  destruct (@create_triplet_pools_some A I s a f1 f2 p Wann Wemb H)
    as (apm & epp & _ & _ & G1 & G2 & _ & _).
  destruct (@wf_annotation_frame (s_annotation s) 0 Wann) as [_ W0]; [lia|].
  split.
  - eapply Forall2_Forall_r; [exact (@gather_rows A _ _ _ G1)|].
    intros [x y] row Hin Hrow. simpl in Hrow.
    apply (@nonzero_In _ x y W0) in Hin. destruct Hin as (v & Hv & Hnz).
    exists x, y, v. repeat split; auto.
    unfold is_foreground. now destruct (Z.eqb_spec v 0).
  - eapply Forall2_Forall_r; [exact (@gather_rows A _ _ _ G2)|].
    intros [x y] row Hin Hrow. simpl in Hrow.
    apply (@nonzero_eq_zero_In _ x y W0) in Hin.
    exists x, y, 0%Z. repeat split; auto.
Qed.

Lemma anchor_rows_are_anchor_pixels_witness :
  exists p,
    create_triplet_pools Toy.good_sample Toy.frames = Ok (Some p)
    /\ Forall (embeds_pixel is_foreground (frame (s_annotation Toy.good_sample) 0)
                            (Toy.field 1))
              (fg_embedding_a p).
Proof.
  eexists. split; [reflexivity|].
  exact (proj1 (@anchor_rows_are_anchor_pixels Z _ Toy.good_sample
                  (Toy.field 1) (Toy.field 2) (Toy.field 3) _
                  eq_refl eq_refl eq_refl)).
Defined.

Lemma same_resolution_inv {A : Type} (annotation : tensor3 Z) (a f1 f2 : tensor3 A) :
  same_resolution annotation [a; f1; f2] = true ->
  t3_d2 annotation = t3_d2 f1.
Proof.
  unfold same_resolution; simpl. rewrite !andb_true_iff, !Nat.eqb_eq. tauto.
Qed.

(** The rows gathered from the combined field at the coordinates of one
    class of the combined mask: each is the vector of F1 or of F2 at a pixel
    of that class, when masks and fields have the same width. *)
Lemma pool_rows_from_frames {A : Type} (f : Z -> bool) (m1 m2 : mask)
      (e1 e2 : tensor3 A) (indices : list (nat * nat)) (b : batch A) :
  wf2 m1 = true -> wf2 m2 = true -> t2_rows m1 = t2_rows m2 ->
  wf3 e1 = true -> wf3 e2 = true ->
  t3_d0 e1 = t3_d0 e2 -> t3_d1 e1 = t3_d1 e2 ->
  t2_cols m1 = t3_d2 e1 ->
  (forall x y, In (x, y) indices ->
               exists v, f v = true
                         /\ t2_get (T2 (t2_rows m1) (t2_cols m1 + t2_cols m2)
                                       (map2 (@app Z) (t2_data m1) (t2_data m2))) x y
                            = Ok v) ->
  gather (T3 (t3_d0 e1) (t3_d1 e1) (t3_d2 e1 + t3_d2 e2)
             (map2 (map2 (@app A)) (t3_data e1) (t3_data e2))) indices = Ok b ->
  Forall (fun row => embeds_pixel f m1 e1 row \/ embeds_pixel f m2 e2 row) b.
Proof.
  intros W1 W2 R V1 V2 E0 E1 Hw Hidx G.
  eapply Forall2_Forall_r; [exact (@gather_rows A _ _ _ G)|].
  intros [x y] row Hin Hrow. simpl in Hrow.
  destruct (Hidx x y Hin) as (v & Hf & Hv).
  rewrite (@cat2_dim1_get Z m1 m2 x y W1 W2 R) in Hv.
  rewrite (@cat3_dim2_get A e1 e2 x y V1 V2 E0 E1) in Hrow.
  rewrite Hw in Hv.
  destruct (y <? t3_d2 e1).
  - left. exists x, y, v. auto.
  - right. exists x, (y - t3_d2 e1), v. auto.
Qed.

(** X5.  Whenever the builder returns pools for well-shaped masks and
    fields of one resolution, every row of [fg_positive_pool] (which is
    [bg_negative_pool]) is the embedding vector of F1 or of F2 at a pixel
    where the mask of that very frame is not zero, and every row of
    [bg_positive_pool] (which is [fg_negative_pool]) the vector of F1 or of
    F2 at a pixel where the mask of that frame is zero: joining masks and
    fields side by side keeps every pixel with the embedding of its own
    frame. *)
Theorem pool_rows_are_pool_pixels (A I : Type) (s : sample I)
        (a f1 f2 : tensor3 A) (p : triplet_pools A) :
  wf_annotation (s_annotation s) = true ->
  wf_embeddings [a; f1; f2] = true ->
  same_resolution (s_annotation s) [a; f1; f2] = true ->
  create_triplet_pools s [a; f1; f2] = Ok (Some p) ->
  Forall (fun row =>
            embeds_pixel is_foreground (frame (s_annotation s) 1) f1 row
            \/ embeds_pixel is_foreground (frame (s_annotation s) 2) f2 row)
         (fg_positive_pool p)
  /\ Forall (fun row =>
               embeds_pixel is_background (frame (s_annotation s) 1) f1 row
               \/ embeds_pixel is_background (frame (s_annotation s) 2) f2 row)
            (bg_positive_pool p)
  /\ fg_negative_pool p = bg_positive_pool p
  /\ bg_negative_pool p = fg_positive_pool p.
Proof.
  intros Wann Wemb Hres H.
  destruct (@create_triplet_pools_role_swap A I s _ p H) as [Efn Ebn].
  destruct (@create_triplet_pools_some A I s a f1 f2 p Wann Wemb H)
    as (apm & epp & Hapm & Hepp & _ & _ & G3 & G4).
  destruct (@wf_annotation_frame (s_annotation s) 1 Wann) as [_ W1]; [lia|].
  destruct (@wf_annotation_frame (s_annotation s) 2 Wann) as [_ W2]; [lia|].
  destruct (@wf_embeddings_inv A _ Wemb)
    as (a' & g1 & g2 & E & _ & V1 & V2 & (A0 & A1 & _) & (B0 & B1 & _)).
  inversion E; subst a' g1 g2.
  assert (E0 : t3_d0 f1 = t3_d0 f2) by congruence.
  assert (E1 : t3_d1 f1 = t3_d1 f2) by congruence.
  pose proof (@same_resolution_inv A _ a f1 f2 Hres) as Hw.
  pose proof (@cat2_dim1_wf Z _ _ W1 W2 eq_refl) as Wapm.
  unfold cat2_dim1 in Hapm. simpl t2_rows in Hapm.
  rewrite Nat.eqb_refl in Hapm. inversion Hapm; subst apm. clear Hapm.
  unfold cat3_dim2 in Hepp. rewrite E0, E1, !Nat.eqb_refl in Hepp.
  rewrite <- E0, <- E1 in Hepp. simpl in Hepp. inversion Hepp; subst epp.
  clear Hepp.
  split; [|split; [|split; assumption]].
  - apply (@pool_rows_from_frames A is_foreground _ _ f1 f2 _ _
             W1 W2 eq_refl V1 V2 E0 E1 Hw) in G3; [exact G3|].
    intros x y Hin. apply (@nonzero_In _ x y Wapm) in Hin.
    destruct Hin as (v & Hv & Hnz). exists v. split; [|exact Hv].
    unfold is_foreground. now destruct (Z.eqb_spec v 0).
  - apply (@pool_rows_from_frames A is_background _ _ f1 f2 _ _
             W1 W2 eq_refl V1 V2 E0 E1 Hw) in G4; [exact G4|].
    intros x y Hin. apply (@nonzero_eq_zero_In _ x y Wapm) in Hin.
    exists 0%Z. split; [reflexivity|exact Hin].
Qed.

Lemma pool_rows_are_pool_pixels_witness :
  exists p,
    create_triplet_pools Toy.good_sample Toy.frames = Ok (Some p)
    /\ Forall (fun row =>
                 embeds_pixel is_foreground (frame (s_annotation Toy.good_sample) 1)
                              (Toy.field 2) row
                 \/ embeds_pixel is_foreground (frame (s_annotation Toy.good_sample) 2)
                                 (Toy.field 3) row)
              (fg_positive_pool p).
Proof.
  eexists. split; [reflexivity|].
  exact (proj1 (@pool_rows_are_pool_pixels Z _ Toy.good_sample
                  (Toy.field 1) (Toy.field 2) (Toy.field 3) _
                  eq_refl eq_refl eq_refl eq_refl)).
Defined.

(** ** What the builder raises *)

(** X7.  Two errors come before the emptiness guard, so they hit every
    sample, degenerate ones included: fewer than three embedding fields raise
    [IndexError], and pool fields F1 and F2 that differ in depth or in height
    raise the [RuntimeError] of [torch.cat]. *)
Theorem builder_errors_precede_guard (A I : Type) (s : sample I)
        (embeddings : list (tensor3 A)) :
  (length embeddings < 3 -> create_triplet_pools s embeddings = Raise IndexError)
  /\ (forall a f1 f2 rest,
         embeddings = a :: f1 :: f2 :: rest ->
         t3_d0 f1 <> t3_d0 f2 \/ t3_d1 f1 <> t3_d1 f2 ->
         create_triplet_pools s embeddings = Raise RuntimeError).
Proof.
  split.
  - intros Hlen. unfold create_triplet_pools.
    destruct embeddings as [|a [|f1 [|f2 rest]]]; simpl in *; try reflexivity.
    lia.
  - intros a f1 f2 rest -> Hne. unfold create_triplet_pools.
    change (py_getitem (a :: f1 :: f2 :: rest) 0) with (Ok a).
    change (py_getitem (a :: f1 :: f2 :: rest) 1) with (Ok f1).
    change (py_getitem (a :: f1 :: f2 :: rest) 2) with (Ok f2).
    cbn [bind]. unfold cat3_dim2.
    destruct (Nat.eqb_spec (t3_d0 f1) (t3_d0 f2));
      destruct (Nat.eqb_spec (t3_d1 f1) (t3_d1 f2)); simpl; try reflexivity.
    tauto.
Qed.

Lemma builder_errors_precede_guard_witness :
  create_triplet_pools Toy.empty_anchor_sample [Toy.field 1; Toy.field 2]
  = Raise IndexError
  /\ create_triplet_pools Toy.empty_anchor_sample Toy.ragged_frames
     = Raise RuntimeError.
Proof.
  destruct (@builder_errors_precede_guard Z _ Toy.empty_anchor_sample
              [Toy.field 1; Toy.field 2]) as [H1 _].
  destruct (@builder_errors_precede_guard Z _ Toy.empty_anchor_sample
              Toy.ragged_frames) as [_ H2].
  split.
  - apply H1. simpl. lia.
  - apply (H2 (Toy.field 1) (Toy.field 2) (Toy.small_field 3) []); [reflexivity|].
    left. discriminate.
Defined.

Lemma mapM_cases {A B : Type} (f : A -> result B) (e : exn) (l : list A) :
  (forall a, In a l -> (exists b, f a = Ok b) \/ f a = Raise e) ->
  (exists bs, mapM f l = Ok bs /\ Forall (fun a => exists b, f a = Ok b) l)
  \/ mapM f l = Raise e.
Proof.
  induction l as [|a l IH]; intros H; simpl.
  - left. eauto.
  - destruct (H a (or_introl eq_refl)) as [(b & Hb)|Hr].
    + rewrite Hb. simpl.
      destruct IH as [(bs & Hbs & HF)|Hr].
      * intros a' Hin. apply H. now right.
      * left. rewrite Hbs. simpl. eauto.
      * right. now rewrite Hr.
    + right. now rewrite Hr.
Qed.

(** On a well-formed field a read succeeds inside the shape and raises
    [IndexError] outside of it. *)
Lemma t3_get_cases {A : Type} (e : tensor3 A) (x y : nat) :
  wf3 e = true ->
  (x < t3_d1 e /\ y < t3_d2 e /\ exists row, t3_get e x y = Ok row)
  \/ ((t3_d1 e <= x \/ t3_d2 e <= y) /\ t3_get e x y = Raise IndexError).
Proof.
  intros W.
  destruct (Nat.ltb_spec x (t3_d1 e)) as [Hx|Hx];
    destruct (Nat.ltb_spec y (t3_d2 e)) as [Hy|Hy].
  - left. destruct (@t3_get_in_range A e x y W Hx Hy) as (v & Hv & _). eauto.
  - right. split; [now right|]. unfold t3_get.
    apply Nat.ltb_ge in Hy. rewrite Hy, andb_false_r. reflexivity.
  - right. split; [now left|]. unfold t3_get.
    apply Nat.ltb_ge in Hx. now rewrite Hx.
  - right. split; [now left|]. unfold t3_get.
    apply Nat.ltb_ge in Hx. now rewrite Hx.
Qed.

(** A gather over a non-empty index list either succeeds, all indices being
    inside the field, or raises [IndexError]. *)
Lemma gather_cases {A : Type} (e : tensor3 A) (indices : list (nat * nat)) :
  wf3 e = true -> indices <> [] ->
  (exists b, gather e indices = Ok b
             /\ Forall (fun xy => fst xy < t3_d1 e /\ snd xy < t3_d2 e) indices)
  \/ gather e indices = Raise IndexError.
Proof.
  intros W Hne. unfold gather.
  destruct (@mapM_cases _ _ (fun xy => t3_get e (fst xy) (snd xy)) IndexError indices)
    as [(rows & Hrows & HF)|Hr].
  - intros xy _.
    destruct (@t3_get_cases A e (fst xy) (snd xy) W) as [(_ & _ & H)|[_ H]]; auto.
  - left. rewrite Hrows. simpl.
    pose proof (mapM_length _ _ Hrows) as L.
    destruct rows as [|r rows]; [destruct indices; [congruence|discriminate]|].
    exists (r :: rows). split; [reflexivity|].
    eapply Forall_impl; [|exact HF]. intros xy (row & Hrow).
    destruct (@t3_get_cases A e (fst xy) (snd xy) W) as [(Hx & Hy & _)|[_ H]];
      [auto | congruence].
  - right. now rewrite Hr.
Qed.

(** Inside its shape a well-formed mask holds a value. *)
Lemma t2_get_in_range (m : mask) (x y : nat) :
  wf2 m = true -> x < t2_rows m -> y < t2_cols m ->
  exists v, t2_get m x y = Ok v.
Proof.
  intros W Hx Hy. apply wf_rows_iff in W. destruct W as [L F].
  unfold t2_get.
  replace (x <? t2_rows m) with true by (symmetry; now apply Nat.ltb_lt).
  replace (y <? t2_cols m) with true by (symmetry; now apply Nat.ltb_lt).
  simpl.
  destruct (@py_getitem_lt _ (t2_data m) x) as (row & G & N); [lia|].
  rewrite G. simpl.
  destruct (@py_getitem_lt _ row y) as (v & Gv & _); [|eauto].
  rewrite Forall_forall in F. rewrite (F row); [lia|].
  eapply nth_error_In; eauto.
Qed.

(** X8.  When the anchor mask is taller or wider than the embedding fields,
    a well-shaped sample that is not degenerate makes the builder raise
    [IndexError]: every pixel of the anchor mask is gathered, so one outside
    the field is always reached. *)
Theorem oversized_mask_raises (A I : Type) (s : sample I) (a f1 f2 : tensor3 A) :
  wf_annotation (s_annotation s) = true ->
  wf_embeddings [a; f1; f2] = true ->
  degenerate (s_annotation s) = false ->
  t3_d1 a < t3_d1 (s_annotation s) \/ t3_d2 a < t3_d2 (s_annotation s) ->
  create_triplet_pools s [a; f1; f2] = Raise IndexError.
Proof.
  intros Wann Wemb Hnd Hbig.
  destruct (@create_triplet_pools_cases A I s a f1 f2 Wann Wemb)
    as (apm & epp & _ & _ & ->).
  destruct (@wf_embeddings_inv A _ Wemb) as (a' & g1 & g2 & E & Wa & _).
  inversion E; subst a' g1 g2.
  destruct (@wf_annotation_frame (s_annotation s) 0 Wann) as [_ W0]; [lia|].
  pose proof (foreground_background_total _ W0) as Htot. simpl in Htot.
  apply degenerate_false in Hnd. destruct Hnd as (N1 & N2 & N3 & N4).
  assert (Hfg : nonzero (frame (s_annotation s) 0) <> []).
  { intros E0. apply N1. unfold fg_anchor_size. now rewrite <- nonzero_length, E0. }
  assert (Hbg : nonzero (eq_zero (frame (s_annotation s) 0)) <> []).
  { intros E0. apply N2. unfold bg_anchor_size.
    now rewrite <- nonzero_eq_zero_length, E0. }
  (* a pixel of the anchor mask outside the field *)
  assert (Hout : exists x y,
             x < t3_d1 (s_annotation s) /\ y < t3_d2 (s_annotation s)
             /\ (t3_d1 a <= x \/ t3_d2 a <= y)).
  { unfold fg_anchor_size in N1.
    assert (0 < t3_d1 (s_annotation s) * t3_d2 (s_annotation s)) by lia.
    destruct Hbig as [Hb|Hb].
    - exists (t3_d1 (s_annotation s) - 1), 0. nia.
    - exists 0, (t3_d2 (s_annotation s) - 1). nia. }
  destruct Hout as (x & y & Hx & Hy & Hxy).
  destruct (@t2_get_in_range (frame (s_annotation s) 0) x y W0 Hx Hy) as (v & Hv).
  apply Nat.eqb_neq in N1, N2, N3, N4. rewrite N1, N2, N3, N4. simpl orb. cbv iota.
  destruct (@gather_cases A a _ Wa Hfg) as [(fg_a & G1 & F1)|G1];
    [|now rewrite G1].
  rewrite G1. cbn [bind].
  destruct (@gather_cases A a _ Wa Hbg) as [(bg_a & G2 & F2)|G2];
    [|now rewrite G2].
  exfalso. rewrite Forall_forall in F1, F2.
  destruct (Z.eq_dec v 0) as [->|Hnz].
  - apply (@nonzero_eq_zero_In _ x y W0) in Hv.
    specialize (F2 _ Hv). simpl in F2. lia.
  - assert (Hin : In (x, y) (nonzero (frame (s_annotation s) 0))).
    { apply (@nonzero_In _ x y W0). eauto. }
    specialize (F1 _ Hin). simpl in F1. lia.
Qed.

Lemma oversized_mask_raises_witness :
  create_triplet_pools Toy.good_sample Toy.small_frames = Raise IndexError.
Proof.
  apply oversized_mask_raises; try reflexivity.
  left. simpl. lia.
Defined.

(** ** More on the training loop *)

Section Training_passes.
Context {D : Domain} {C : Collaborators}.
Variable epoch : nat.
Variable log_interval checkpoint_interval : Z.

(** One pass of the training loop, however it ends: the network is called
    once; the checkpoints are left alone, or one is added, tagged with the
    epoch and the batch id, at a batch id the checkpoint interval divides,
    holding the parameters the model then has; the mode of the model is left
    alone unless a checkpoint is taken; and the pass ends normally when the
    builder raises nothing and no interval is zero. *)
Lemma train_iteration_spec (idx : nat) (s : sample image) (agg : float * float)
      (w w1 : world) (r : result (float * float)) :
  train_iteration epoch log_interval checkpoint_interval idx s agg w = (w1, r) ->
  w_calls w1 = w_calls w ++ [s_image s]
  /\ (w_ckpts w1 = w_ckpts w
      /\ m_training (w_model w1) = m_training (w_model w)
      \/ checkpoint_interval <> 0%Z
         /\ ((Z.of_nat idx + 1) mod checkpoint_interval = 0)%Z
         /\ w_ckpts w1 = w_ckpts w ++ [Ckpt (Z.of_nat epoch + 1) (Z.of_nat idx + 1)
                                          (m_params (w_model w1))])
  /\ (log_interval <> 0%Z -> checkpoint_interval <> 0%Z ->
      (exists r0, create_triplet_pools s (model_call (w_model w) (s_image s)) = Ok r0) ->
      exists agg', r = Ok agg').
Proof.
  unfold train_iteration, bindp, call_model, lift. simpl.
  destruct (create_triplet_pools s (model_call (w_model w) (s_image s)))
    as [[p|]|e]; simpl.
  - unfold backpropagation, bindp, modify. simpl.
    destruct (optimizer_step _ _ _) as [o p'] eqn:E. simpl.
    unfold py_mod.
    destruct (Z.eqb_spec log_interval 0) as [Hl|Hl]; simpl.
    { intros H; inversion H; subst; clear H. simpl.
      split; [reflexivity|]. split; [left; auto|]. intros Hn; contradiction. }
    destruct (Z.eqb _ 0); simpl;
      (destruct (Z.eqb_spec checkpoint_interval 0) as [Hc|Hc]; simpl;
       [ intros H; inversion H; subst; clear H; simpl;
         split; [reflexivity|]; split; [left; auto|];
         intros _ Hn; contradiction
       | destruct (Z.eqb_spec ((Z.of_nat idx + 1) mod checkpoint_interval) 0)
           as [Hm|Hm]; simpl;
         intros H; inversion H; subst; clear H; simpl;
         (split; [reflexivity|]); (split; [|intros _ _ _; eauto]);
         [right; auto | left; auto] ]).
  - intros H; inversion H; subst; clear H. simpl.
    split; [reflexivity|]. split; [left; auto|]. intros _ _ _; eauto.
  - intros H; inversion H; subst; clear H. simpl.
    split; [reflexivity|]. split; [left; auto|].
    intros _ _ (r0 & Hr0). discriminate.
Qed.

(** The loop visits every sample when every pass ends normally. *)
Lemma train_loop_visits_all (data : list (sample image)) (idx : nat)
      (agg : float * float) (w : world) :
  log_interval <> 0%Z -> checkpoint_interval <> 0%Z ->
  Forall builder_returns data ->
  exists w' agg',
    train_loop epoch log_interval checkpoint_interval idx data agg w = (w', Ok agg')
    /\ w_calls w' = w_calls w ++ map (@s_image image) data.
Proof.
  intros Hl Hc HF. revert idx agg w.
  induction HF as [|s rest Hs _ IH]; intros idx agg w; cbn [train_loop].
  - exists w, agg. split; [reflexivity|]. simpl. now rewrite app_nil_r.
  - unfold bindp.
    destruct (train_iteration epoch log_interval checkpoint_interval idx s agg w)
      as [w1 r] eqn:E.
    destruct (train_iteration_spec _ _ _ _ E) as (Hcalls & _ & Hok).
    destruct (Hok Hl Hc (Hs (w_model w))) as (agg1 & ->).
    destruct (IH (S idx) agg1 w1) as (w' & agg' & Hw' & Hc').
    exists w', agg'. split; [exact Hw'|].
    rewrite Hc', Hcalls, <- app_assoc. reflexivity.
Qed.

(** The checkpoints the loop writes are on the cadence. *)
Lemma train_loop_checkpoints (data : list (sample image)) (idx : nat)
      (agg : float * float) (w : world) :
  exists new,
    w_ckpts (fst (train_loop epoch log_interval checkpoint_interval idx data agg w))
    = w_ckpts w ++ new
    /\ Forall (checkpoint_on_cadence epoch checkpoint_interval idx (idx + length data))
              new.
Proof.
  revert idx agg w. induction data as [|s rest IH]; intros idx agg w;
    cbn [train_loop].
  - exists []. simpl. split; [now rewrite app_nil_r|constructor].
  - unfold bindp.
    destruct (train_iteration epoch log_interval checkpoint_interval idx s agg w)
      as [w1 r] eqn:E.
    destruct (train_iteration_spec _ _ _ _ E) as (_ & Hck & _).
    assert (Hone : exists one,
               w_ckpts w1 = w_ckpts w ++ one
               /\ Forall (checkpoint_on_cadence epoch checkpoint_interval idx
                                                (idx + length (s :: rest))) one).
    { destruct Hck as [[Hsame _]|(Hc & Hm & Hadd)].
      - exists []. split; [now rewrite app_nil_r|constructor].
      - eexists. split; [exact Hadd|]. constructor; [|constructor].
        unfold checkpoint_on_cadence. simpl. repeat split; auto; lia. }
    destruct Hone as (one & Hone & Fone).
    destruct r as [agg1|e]; simpl.
    + destruct (IH (S idx) agg1 w1) as (new & Hnew & Fnew).
      exists (one ++ new). split.
      * now rewrite Hnew, Hone, app_assoc.
      * apply Forall_app. split; [exact Fone|].
        eapply Forall_impl; [|exact Fnew].
        unfold checkpoint_on_cadence. simpl. intros c (H1 & H2 & H3).
        repeat split; auto; lia.
    + exists one. split; [exact Hone|exact Fone].
Qed.

End Training_passes.

(** X9.  With intervals that are not zero and a builder that raises on no
    sample, [train] ends normally and has called the network on every sample
    of the data loader once, in order: samples the builder rejects are
    skipped after the network has run on them, and the loop goes on. *)
Theorem train_visits_every_sample (D : Domain) (C : Collaborators) (epoch : nat)
        (data : list (sample image)) (log_interval checkpoint_interval : Z)
        (w : world) :
  log_interval <> 0%Z -> checkpoint_interval <> 0%Z ->
  Forall builder_returns data ->
  snd (train epoch data log_interval checkpoint_interval w) = Ok tt
  /\ w_calls (fst (train epoch data log_interval checkpoint_interval w))
     = w_calls w ++ map (@s_image image) data.
Proof.
  intros Hl Hc HF. unfold train, bindp.
  destruct (@train_loop_visits_all D C epoch log_interval checkpoint_interval
              data 0 (fzero, fzero) w Hl Hc HF) as (w' & agg' & Hw' & Hcalls).
  rewrite Hw'. simpl. split; [reflexivity|exact Hcalls].
Qed.

(** X12.  However [train] ends, the checkpoints it has written are those
    that were there followed by checkpoints tagged with the epoch plus one
    and with a batch id between 1 and the number of samples that the
    checkpoint interval divides. *)
Theorem checkpoints_follow_the_interval (D : Domain) (C : Collaborators)
        (epoch : nat) (data : list (sample image))
        (log_interval checkpoint_interval : Z) (w : world) :
  exists new,
    w_ckpts (fst (train epoch data log_interval checkpoint_interval w))
    = w_ckpts w ++ new
    /\ Forall (checkpoint_on_cadence epoch checkpoint_interval 0 (length data)) new.
Proof.
  destruct (@train_loop_checkpoints D C epoch log_interval checkpoint_interval
              data 0 (fzero, fzero) w) as (new & Hnew & Fnew).
  exists new. split; [|exact Fnew].
  unfold train, bindp.
  destruct (train_loop epoch log_interval checkpoint_interval 0 data (fzero, fzero) w)
    as [w' [agg'|e]]; exact Hnew.
Qed.

Lemma toy_builder_returns_good : builder_returns (C := Toy.collaborators) Toy.good_sample.
Proof.
  intros m.
  destruct (@create_triplet_pools_valid Z _ Toy.good_sample
              (@model_call Toy.domain Toy.collaborators m
                           (s_image Toy.good_sample))) as (p & Hp & _).
  - reflexivity.
  - exists (Some p). exact Hp.
Qed.

Lemma toy_builder_returns_empty_anchor :
  builder_returns (C := Toy.collaborators) Toy.empty_anchor_sample.
Proof.
  intros m. exists None.
  apply create_triplet_pools_degenerate; reflexivity.
Qed.

Lemma train_visits_every_sample_witness :
  snd (train (C := Toy.collaborators) 0
             [Toy.good_sample; Toy.empty_anchor_sample; Toy.good_sample] 1 2
             Toy.world0) = Ok tt
  /\ length (w_calls (fst (train (C := Toy.collaborators) 0
             [Toy.good_sample; Toy.empty_anchor_sample; Toy.good_sample] 1 2
             Toy.world0))) = 3.
Proof.
  destruct (@train_visits_every_sample Toy.domain Toy.collaborators 0
              [Toy.good_sample; Toy.empty_anchor_sample; Toy.good_sample]
              1%Z 2%Z Toy.world0) as [H1 H2].
  - discriminate.
  - discriminate.
  - repeat constructor.
    + exact toy_builder_returns_good.
    + exact toy_builder_returns_empty_anchor.
    + exact toy_builder_returns_good.
  - split; [exact H1|].
    etransitivity; [exact (f_equal (@length _) H2) | reflexivity].
Defined.

(** The samples the builder rejects at the head of the data loader are
    passed over: the loop goes on with the rest, from a world in which only
    the calls of the network and the skip records were added. *)
Lemma train_loop_skip_prefix {D : Domain} {C : Collaborators} (epoch : nat)
      (log_interval checkpoint_interval : Z) (skipped data : list (sample image))
      (idx : nat) (agg : float * float) (w : world) :
  Forall (fun s => create_triplet_pools s (model_call (w_model w) (s_image s))
                   = Ok None) skipped ->
  train_loop epoch log_interval checkpoint_interval idx (skipped ++ data) agg w
  = train_loop epoch log_interval checkpoint_interval (idx + length skipped) data agg
      (World (w_model w) (w_grads w) (w_optim w) (w_meter w)
             (w_calls w ++ map (@s_image image) skipped)
             (w_log w ++ map (fun i => Debug_skipping (Z.of_nat i + 1))
                             (seq idx (length skipped)))
             (w_scalars w) (w_ckpts w)).
Proof.
  intros HF. revert idx w HF.
  induction skipped as [|s skipped IH]; intros idx w HF.
  - simpl. rewrite !app_nil_r, Nat.add_0_r. now destruct w.
  - inversion HF as [|? ? Hs Hrest]; subst.
    cbn [app train_loop]. unfold bindp.
    rewrite (@train_iteration_skip D C epoch log_interval checkpoint_interval
               idx s agg w Hs).
    rewrite IH by exact Hrest. simpl.
    rewrite <- !app_assoc. simpl.
    now replace (S (idx + length skipped)) with (idx + S (length skipped)) by lia.
Qed.

(** X11.  A zero interval is a division by zero at the first sample the
    builder hands back pools for.  In [train], with a zero log interval or a
    zero checkpoint interval, the samples the builder rejects before it are
    skipped without any division, and the [ZeroDivisionError] of that first
    sample comes after the optimizer step: the parameters and the optimizer
    are already updated, no checkpoint is written and the rest of the data
    loader is not visited.  In [validate], where a rejected sample is not
    skipped, with a zero log interval a first sample that yields pools raises
    it before anything is written to the summary writer, also when the sample
    is the one the cap points at. *)
Theorem zero_interval_raises (D : Domain) (C : Collaborators) (epoch : nat)
        (skipped : list (sample image)) (s : sample image)
        (rest : list (sample image))
        (log_interval checkpoint_interval k : Z) (w : world) :
  (Forall (fun s' => create_triplet_pools s' (model_call (w_model w) (s_image s'))
                     = Ok None) skipped ->
   yields_pools (w_model w) s ->
   log_interval = 0%Z \/ checkpoint_interval = 0%Z ->
   let r := train epoch (skipped ++ s :: rest) log_interval checkpoint_interval w in
   snd r = Raise ZeroDivisionError
   /\ w_calls (fst r) = w_calls w ++ map (@s_image image) skipped ++ [s_image s]
   /\ w_ckpts (fst r) = w_ckpts w
   /\ (w_optim (fst r), m_params (w_model (fst r)))
      = optimizer_step (w_optim w)
                       (backward (w_model w) s (zero_grad (w_grads w)))
                       (m_params (w_model w)))
  /\ (yields_pools (nn_eval (w_model w)) s ->
      let r := validate epoch (s :: rest) 0 k w in
      snd r = Raise ZeroDivisionError
      /\ w_calls (fst r) = w_calls w ++ [s_image s]
      /\ w_scalars (fst r) = w_scalars w).
Proof.
  split.
  - intros HF (p & Hp) Hz r.
    assert (Hr : exists w',
               r = (w', Raise ZeroDivisionError)
               /\ w_calls w' = w_calls w ++ map (@s_image image) skipped ++ [s_image s]
               /\ w_ckpts w' = w_ckpts w
               /\ (w_optim w', m_params (w_model w'))
                  = optimizer_step (w_optim w)
                                   (backward (w_model w) s (zero_grad (w_grads w)))
                                   (m_params (w_model w))).
    { subst r. unfold train. unfold bindp at 1.
      rewrite (@train_loop_skip_prefix D C epoch log_interval checkpoint_interval
                 skipped (s :: rest) 0 (fzero, fzero) w HF).
      cbn [train_loop].
      unfold bindp, train_iteration, bindp, call_model, lift. simpl.
      rewrite Hp. simpl.
      unfold backpropagation, bindp, modify. simpl.
      destruct (optimizer_step _ _ _) as [o p'] eqn:E. simpl.
      unfold py_mod.
      destruct (Z.eqb_spec log_interval 0) as [Hl|Hl]; simpl.
      - eexists. split; [reflexivity|]. simpl. rewrite <- app_assoc. auto.
      - destruct Hz as [Hz|Hz]; [contradiction|]. subst checkpoint_interval.
        destruct (Z.eqb _ 0); simpl;
          (eexists; split; [reflexivity|]; simpl; rewrite <- app_assoc; auto). }
    destruct Hr as (w' & -> & H1 & H2 & H3). simpl. auto.
  - intros (p & Hp). rewrite validate_unfold. cbn [validate_loop].
    unfold bindp, validate_iteration, bindp, call_model, lift. simpl.
    rewrite Hp. simpl. auto.
Qed.

Lemma zero_interval_raises_witness :
  snd (train (C := Toy.collaborators) 0
             [Toy.empty_anchor_sample; Toy.good_sample; Toy.good_sample] 3 0
             Toy.world0) = Raise ZeroDivisionError
  /\ length (w_calls (fst (train (C := Toy.collaborators) 0
             [Toy.empty_anchor_sample; Toy.good_sample; Toy.good_sample] 3 0
             Toy.world0))) = 2
  /\ snd (validate (C := Toy.collaborators) 0 [Toy.good_sample] 0 0 Toy.world0)
     = Raise ZeroDivisionError.
Proof.
  destruct (@zero_interval_raises Toy.domain Toy.collaborators 0
              [Toy.empty_anchor_sample] Toy.good_sample
              [Toy.good_sample] 3%Z 0%Z 0%Z Toy.world0) as [H1 _].
  destruct (@zero_interval_raises Toy.domain Toy.collaborators 0
              [] Toy.good_sample [] 0%Z 0%Z 0%Z Toy.world0) as [_ H2].
  destruct H1 as (R1 & R2 & _).
  - repeat constructor.
  - eexists; reflexivity.
  - right; reflexivity.
  - split; [exact R1|]. split.
    + etransitivity; [exact (f_equal (@length _) R2) | reflexivity].
    + apply H2. eexists; reflexivity.
Defined.

(** ** More on the validation loop *)

Section Validation_frame.
Context {D : Domain} {C : Collaborators}.
Variable w0 : world.

Let Frame : world -> Prop := validation_frame w0.

(** A step that only calls the network or writes to the logger or to the
    summary writer. *)
Lemma frame_step (f : world -> world) :
  (forall w, w_model (f w) = w_model w) ->
  (forall w, w_grads (f w) = w_grads w) ->
  (forall w, w_optim (f w) = w_optim w) ->
  (forall w, w_meter (f w) = w_meter w) ->
  (forall w, w_ckpts (f w) = w_ckpts w) ->
  preserves Frame (modify f).
Proof.
  intros Hm Hg Ho Ht Hc. apply preserves_modify.
  intros w H. unfold Frame, validation_frame in *.
  now rewrite Hm, Hg, Ho, Ht, Hc.
Qed.

Lemma validate_iteration_frame (epoch : nat) (log_interval k : Z) (idx : nat)
      (s : sample image) (agg : float * float) :
  preserves Frame (validate_iteration epoch log_interval k idx s agg).
Proof.
  unfold validate_iteration.
  apply preserves_bindp; [intros w H; exact H|intros embeddings].
  apply preserves_bindp; [apply preserves_lift|intros pools].
  apply preserves_bindp; [apply preserves_lift|intros p].
  apply preserves_bindp; [apply preserves_lift|intros r].
  apply preserves_bindp; [|intros _; apply preserves_ret].
  apply preserves_when. unfold validate_logging.
  repeat (apply preserves_bindp; [|intros _]); apply frame_step; reflexivity.
Qed.

Lemma validate_loop_frame (epoch : nat) (log_interval k : Z)
      (data : list (sample image)) (idx : nat) (agg : float * float) :
  preserves Frame (validate_loop epoch log_interval k idx data agg).
Proof.
  revert idx agg. induction data as [|s rest IH]; intros idx agg;
    cbn [validate_loop].
  - apply preserves_ret.
  - apply preserves_bindp; [apply validate_iteration_frame|intros r].
    destruct (snd r); [apply preserves_ret | apply IH].
Qed.
End Validation_frame.

(** X13.  However [validate] ends, it has changed nothing of the state of
    training but the mode of the model: the parameters, the device and the
    frozen layers of the model, the gradients, the optimizer, the meter and
    the checkpoints are what they were, and the model is in evaluation
    mode. *)
Theorem validate_touches_only_the_mode (D : Domain) (C : Collaborators)
        (epoch : nat) (data : list (sample image)) (log_interval k : Z)
        (w : world) :
  validation_frame w (fst (validate epoch data log_interval k w)).
Proof.
  rewrite validate_unfold.
  apply (@validate_loop_frame D C w).
  unfold validation_frame. simpl. repeat split; reflexivity.
Qed.




Section Validation_log.
Context {D : Domain} {C : Collaborators}.
Variable epoch : nat.
Variable log_interval : Z.
Variable k : Z.

(** A pass only adds to the summary writer; the pass over the sample the cap
    points at adds, last, the ['val_loss'] entry of its step. *)
Lemma validate_iteration_scalars (idx : nat) (s : sample image)
      (agg : float * float) (w w1 : world) (r : result (float * float * bool)) :
  validate_iteration epoch log_interval k idx s agg w = (w1, r) ->
  (exists new, w_scalars w1 = w_scalars w ++ new)
  /\ (log_interval <> 0%Z -> yields_pools (w_model w) s -> Z.of_nat idx = k ->
      w_scalars w1
      = w_scalars w ++ [("val_loss"%string, fst (meter_value (w_meter w)),
                         (k + 1)%Z)]).
Proof.
  unfold validate_iteration, bindp, call_model, lift, yields_pools. simpl.
  destruct (create_triplet_pools s (model_call (w_model w) (s_image s)))
    as [[p|]|e]; simpl.
  - unfold py_mod. destruct (Z.eqb_spec log_interval 0) as [Hz|Hz]; simpl.
    + intros H; inversion H; subst; clear H. simpl. split.
      * exists []. now rewrite app_nil_r.
      * intros Hn; contradiction.
    + destruct (Z.eqb_spec (Z.of_nat idx) k) as [Hk|Hk].
      * rewrite orb_true_r. simpl.
        intros H; inversion H; subst; clear H. simpl. split; [eauto|].
        intros _ _ _. reflexivity.
      * rewrite orb_false_r. destruct (Z.eqb _ 0); simpl;
          intros H; inversion H; subst; clear H; simpl;
          (split; [|intros _ _ Hn; contradiction]); [eauto|].
        exists []. now rewrite app_nil_r.
  - intros H; inversion H; subst; clear H. simpl. split.
    + exists []. now rewrite app_nil_r.
    + intros _ (p & Hp). discriminate.
  - intros H; inversion H; subst; clear H. simpl. split.
    + exists []. now rewrite app_nil_r.
    + intros _ (p & Hp). discriminate.
Qed.

Lemma validate_loop_terminal_entry (data : list (sample image)) (idx : nat)
      (agg : float * float) (w : world) :
  (Z.of_nat idx <= k < Z.of_nat (idx + length data))%Z ->
  log_interval <> 0%Z ->
  Forall (yields_pools (w_model w)) (firstn (Z.to_nat k + 1 - idx) data) ->
  exists earlier,
    w_scalars (fst (validate_loop epoch log_interval k idx data agg w))
    = w_scalars w ++ earlier
      ++ [("val_loss"%string, fst (meter_value (w_meter w)), (k + 1)%Z)].
Proof.
  revert idx agg w. induction data as [|s rest IH]; intros idx agg w Hk Hli HF.
  - simpl in Hk. lia.
  - cbn [validate_loop]. unfold bindp.
    destruct (validate_iteration epoch log_interval k idx s agg w)
      as [w1 r] eqn:E.
    destruct (validate_iteration_spec _ _ _ _ _ _ _ E) as (Hm & _ & Hmeter & _ & Hok).
    destruct (validate_iteration_scalars _ _ _ _ E) as ((new & Hnew) & Hlast).
    replace (Z.to_nat k + 1 - idx) with (S (Z.to_nat k - idx)) in HF by lia.
    cbn [firstn] in HF.
    inversion HF as [|? ? Hs Hrest]; subst.
    destruct (Hok Hli Hs) as (agg' & ->). simpl.
    destruct (Z.eqb_spec (Z.of_nat idx) k) as [Heq|Hne]; simpl.
    + exists []. simpl. now apply Hlast.
    + destruct (IH (S idx) agg' w1) as (earlier & Hearlier).
      * simpl in Hk. lia.
      * assumption.
      * replace (Z.to_nat k + 1 - S idx) with (Z.to_nat k - idx) by lia.
        now rewrite Hm.
      * exists (new ++ earlier).
        rewrite Hearlier, Hnew, Hmeter, <- !app_assoc. reflexivity.
Qed.
End Validation_log.

(** X15.  When [validate] is left at the cap (cap [0 <= k < N], log interval
    not zero, pools for the samples of index 0 to [k]), the last entry it has
    written to the summary writer is the ['val_loss'] entry of step [k + 1],
    whether or not the log interval divides [k + 1]: the sample the cap
    points at is always logged. *)
Theorem validation_logs_the_last_sample (D : Domain) (C : Collaborators)
        (epoch : nat) (data : list (sample image)) (log_interval k : Z)
        (w : world) :
  (0 <= k < Z.of_nat (length data))%Z ->
  log_interval <> 0%Z ->
  Forall (yields_pools (nn_eval (w_model w))) (firstn (Z.to_nat k + 1) data) ->
  exists earlier,
    w_scalars (fst (validate epoch data log_interval k w))
    = w_scalars w ++ earlier
      ++ [("val_loss"%string, fst (meter_value (w_meter w)), (k + 1)%Z)].
Proof.
  intros Hk Hli HF. rewrite validate_unfold.
  destruct (@validate_loop_terminal_entry D C epoch log_interval k data 0
              (fzero, fzero) (set_model (nn_eval (w_model w)) w))
    as (earlier & H).
  - simpl. lia.
  - exact Hli.
  - rewrite Nat.sub_0_r. exact HF.
  - exists earlier. exact H.
Qed.

Lemma validation_logs_the_last_sample_witness :
  exists earlier,
    w_scalars (fst (validate (C := Toy.collaborators) 0
                             [Toy.good_sample; Toy.good_sample; Toy.good_sample]
                             5 1 Toy.world0))
    = earlier ++ [("val_loss"%string, 0%Z, 2%Z)].
Proof.
  destruct (@validation_logs_the_last_sample Toy.domain Toy.collaborators 0
              [Toy.good_sample; Toy.good_sample; Toy.good_sample] 5%Z 1%Z
              Toy.world0) as (earlier & H).
  - simpl. lia.
  - discriminate.
  - repeat constructor; eexists; reflexivity.
  - exists earlier. exact H.
Defined.

(** X16.  An exception in [validate] ends the epochs of [main]: when the
    training of an epoch ends normally and the first validation sample is
    degenerate, the epoch loop is left by the [TypeError]; the network has
    been called on that sample and on nothing after it, no further
    checkpoint is written, and no later epoch runs. *)
Theorem degenerate_validation_sample_ends_main (D : Domain) (C : Collaborators)
        (epoch : nat) (train_data val_rest : list (sample image))
        (s : sample image)
        (later : list (list (sample image) * list (sample image)))
        (log_interval checkpoint_interval k : Z) (w : world) :
  let w1 := fst (train epoch train_data log_interval checkpoint_interval w) in
  snd (train epoch train_data log_interval checkpoint_interval w) = Ok tt ->
  wf_annotation (s_annotation s) = true ->
  wf_embeddings (model_call (nn_eval (w_model w1)) (s_image s)) = true ->
  degenerate (s_annotation s) = true ->
  let r := main_epochs epoch ((train_data, s :: val_rest) :: later)
                       log_interval checkpoint_interval k w in
  snd r = Raise TypeError
  /\ w_calls (fst r) = w_calls w1 ++ [s_image s]
  /\ w_ckpts (fst r) = w_ckpts w1
  /\ m_params (w_model (fst r)) = m_params (w_model w1).
Proof.
  intros w1 Htrain Wann Wemb Hdeg r.
  assert (Hr : r = (add_call (s_image s) (set_model (nn_eval (w_model w1)) w1),
                    Raise TypeError)).
  { subst r w1. cbn [main_epochs]. unfold bindp at 1.
    destruct (train epoch train_data log_interval checkpoint_interval w)
      as [w1 r1] eqn:E.
    simpl in Htrain, Wemb. subst r1.
    unfold bindp at 1. rewrite validate_unfold. cbn [validate_loop].
    unfold bindp, validate_iteration, bindp, call_model, lift. simpl.
    now rewrite (create_triplet_pools_degenerate s _ Wann Wemb Hdeg). }
  rewrite Hr. simpl. repeat split; reflexivity.
Qed.

Lemma degenerate_validation_sample_ends_main_witness :
  snd (main_epochs (C := Toy.collaborators) 0
                   [([Toy.good_sample], [Toy.empty_anchor_sample]);
                    ([Toy.good_sample], [Toy.good_sample])]
                   1 1 5 Toy.world0)
  = Raise TypeError.
Proof.
  apply (@degenerate_validation_sample_ends_main Toy.domain Toy.collaborators 0
           [Toy.good_sample] [] Toy.empty_anchor_sample
           [([Toy.good_sample], [Toy.good_sample])] 1%Z 1%Z 5%Z Toy.world0);
    reflexivity.
Defined.

(** ** No pixel is lost *)

Lemma Forall2_In_l {A B : Type} (R : A -> B -> Prop) (l : list A) (bs : list B)
      (a : A) :
  Forall2 R l bs -> In a l -> exists b, In b bs /\ R a b.
Proof.
  induction 1 as [|a' b l bs Hab _ IH]; intros Hin; [destruct Hin|].
  destruct Hin as [->|Hin].
  - exists b. split; [now left|exact Hab].
  - destruct (IH Hin) as (b' & Hb' & HR). exists b'. split; [now right|exact HR].
Qed.

Lemma t2_get_Ok_range (m : mask) (x y : nat) (v : Z) :
  t2_get m x y = Ok v -> x < t2_rows m /\ y < t2_cols m.
Proof.
  unfold t2_get.
  destruct (Nat.ltb_spec x (t2_rows m)) as [Hx|Hx];
    destruct (Nat.ltb_spec y (t2_cols m)) as [Hy|Hy];
    simpl; intros Hv; try discriminate. auto.
Qed.

(** A gather of the coordinates of one class holds the vector of every
    pixel of that class. *)
Lemma gathered_pixel {A : Type} (m : mask) (e : tensor3 A) (x y : nat) (v : Z)
      (fg bg : batch A) :
  wf2 m = true ->
  gather e (nonzero m) = Ok fg ->
  gather e (nonzero (eq_zero m)) = Ok bg ->
  t2_get m x y = Ok v ->
  exists row,
    t3_get e x y = Ok row
    /\ In row (if is_foreground v then fg else bg).
Proof.
  intros W Gfg Gbg Hv. unfold is_foreground.
  destruct (Z.eqb_spec v 0) as [->|Hnz]; simpl.
  - apply (@nonzero_eq_zero_In m x y W) in Hv.
    destruct (@Forall2_In_l _ _ _ _ _ _ (@gather_rows A _ _ _ Gbg) Hv)
      as (row & Hin & Hrow).
    exists row. auto.
  - assert (Hin0 : In (x, y) (nonzero m)) by (apply (@nonzero_In m x y W); eauto).
    destruct (@Forall2_In_l _ _ _ _ _ _ (@gather_rows A _ _ _ Gfg) Hin0)
      as (row & Hin & Hrow).
    exists row. auto.
Qed.

(** X6.  Whenever the builder returns pools for well-shaped masks and
    fields of one resolution, no pixel is lost: the embedding vector of the
    anchor field at each pixel of the anchor mask is a row of
    [fg_embedding_a] when the pixel is not zero and of [bg_embedding_a] when
    it is zero, and the vector of F1, and of F2, at each pixel of its mask is
    a row of [fg_positive_pool] or of [bg_positive_pool] in the same way. *)
Theorem every_pixel_is_gathered (A I : Type) (s : sample I)
        (a f1 f2 : tensor3 A) (p : triplet_pools A) :
  wf_annotation (s_annotation s) = true ->
  wf_embeddings [a; f1; f2] = true ->
  same_resolution (s_annotation s) [a; f1; f2] = true ->
  create_triplet_pools s [a; f1; f2] = Ok (Some p) ->
  forall x y v,
    (t2_get (frame (s_annotation s) 0) x y = Ok v ->
     exists row,
       t3_get a x y = Ok row
       /\ In row (if is_foreground v then fg_embedding_a p else bg_embedding_a p))
    /\ (t2_get (frame (s_annotation s) 1) x y = Ok v ->
        exists row,
          t3_get f1 x y = Ok row
          /\ In row (if is_foreground v then fg_positive_pool p
                     else bg_positive_pool p))
    /\ (t2_get (frame (s_annotation s) 2) x y = Ok v ->
        exists row,
          t3_get f2 x y = Ok row
          /\ In row (if is_foreground v then fg_positive_pool p
                     else bg_positive_pool p)).
Proof.
  intros Wann Wemb Hres H x y v.
  destruct (@create_triplet_pools_some A I s a f1 f2 p Wann Wemb H)
    as (apm & epp & Hapm & Hepp & G1 & G2 & G3 & G4).
  destruct (@wf_annotation_frame (s_annotation s) 0 Wann) as [_ W0]; [lia|].
  destruct (@wf_annotation_frame (s_annotation s) 1 Wann) as [_ W1]; [lia|].
  destruct (@wf_annotation_frame (s_annotation s) 2 Wann) as [_ W2]; [lia|].
  destruct (@wf_embeddings_inv A _ Wemb)
    as (a' & g1 & g2 & E & _ & V1 & V2 & (A0 & A1 & _) & (B0 & B1 & _)).
  inversion E; subst a' g1 g2.
  assert (E0 : t3_d0 f1 = t3_d0 f2) by congruence.
  assert (E1 : t3_d1 f1 = t3_d1 f2) by congruence.
  pose proof (@same_resolution_inv A _ a f1 f2 Hres) as Hw.
  pose proof (@cat2_dim1_wf Z _ _ W1 W2 eq_refl) as Wapm.
  unfold cat2_dim1 in Hapm. simpl t2_rows in Hapm.
  rewrite Nat.eqb_refl in Hapm. inversion Hapm; subst apm. clear Hapm.
  unfold cat3_dim2 in Hepp. rewrite E0, E1, !Nat.eqb_refl in Hepp.
  rewrite <- E0, <- E1 in Hepp. simpl in Hepp. inversion Hepp; subst epp.
  clear Hepp.
  split; [|split].
  - intros Hv. exact (@gathered_pixel A _ a x y v _ _ W0 G1 G2 Hv).
  - intros Hv. destruct (@t2_get_Ok_range _ _ _ _ Hv) as [_ Hy]. simpl in Hy.
    assert (Hv' : t2_get (T2 (t2_rows (frame (s_annotation s) 1))
                             (t2_cols (frame (s_annotation s) 1)
                              + t2_cols (frame (s_annotation s) 2))
                             (map2 (@app Z) (t2_data (frame (s_annotation s) 1))
                                   (t2_data (frame (s_annotation s) 2)))) x y
                  = Ok v).
    { rewrite (@cat2_dim1_get Z _ _ x y W1 W2 eq_refl). simpl.
      apply Nat.ltb_lt in Hy. now rewrite Hy. }
    destruct (@gathered_pixel A _ _ x y v _ _ Wapm G3 G4 Hv') as (row & Hrow & Hin).
    exists row. split; [|exact Hin].
    rewrite (@cat3_dim2_get A f1 f2 x y V1 V2 E0 E1) in Hrow.
    rewrite <- Hw in Hrow. apply Nat.ltb_lt in Hy. now rewrite Hy in Hrow.
  - intros Hv. destruct (@t2_get_Ok_range _ _ _ _ Hv) as [_ Hy]. simpl in Hy.
    assert (Hv' : t2_get (T2 (t2_rows (frame (s_annotation s) 1))
                             (t2_cols (frame (s_annotation s) 1)
                              + t2_cols (frame (s_annotation s) 2))
                             (map2 (@app Z) (t2_data (frame (s_annotation s) 1))
                                   (t2_data (frame (s_annotation s) 2))))
                         x (y + t3_d2 (s_annotation s))
                  = Ok v).
    { rewrite (@cat2_dim1_get Z _ _ x (y + t3_d2 (s_annotation s)) W1 W2 eq_refl).
      simpl.
      replace (y + t3_d2 (s_annotation s) <? t3_d2 (s_annotation s)) with false
        by (symmetry; apply Nat.ltb_ge; lia).
      now rewrite Nat.add_sub. }
    destruct (@gathered_pixel A _ _ x (y + t3_d2 (s_annotation s)) v _ _
                Wapm G3 G4 Hv') as (row & Hrow & Hin).
    exists row. split; [|exact Hin].
    rewrite (@cat3_dim2_get A f1 f2 x (y + t3_d2 (s_annotation s)) V1 V2 E0 E1)
      in Hrow.
    rewrite <- Hw in Hrow.
    replace (y + t3_d2 (s_annotation s) <? t3_d2 (s_annotation s)) with false
      in Hrow by (symmetry; apply Nat.ltb_ge; lia).
    now rewrite Nat.add_sub in Hrow.
Qed.

Lemma every_pixel_is_gathered_witness :
  exists p row,
    create_triplet_pools Toy.good_sample Toy.frames = Ok (Some p)
    /\ t3_get (Toy.field 3) 1 0 = Ok row
    /\ In row (fg_positive_pool p).
Proof.
  eexists.
  destruct (@every_pixel_is_gathered Z _ Toy.good_sample
              (Toy.field 1) (Toy.field 2) (Toy.field 3) _
              eq_refl eq_refl eq_refl eq_refl 1 0 1%Z) as (_ & _ & H).
  destruct (H eq_refl) as (row & Hrow & Hin).
  exists row. split; [reflexivity|]. split; [exact Hrow|exact Hin].
Defined.

(** ** A data loader of rejected samples *)

Section Training_skips.
Context {D : Domain} {C : Collaborators}.
Variable epoch : nat.
Variable log_interval checkpoint_interval : Z.

Lemma train_loop_all_skipped (data : list (sample image)) (idx : nat)
      (agg : float * float) (w : world) :
  Forall (fun s => create_triplet_pools s (model_call (w_model w) (s_image s))
                   = Ok None) data ->
  train_loop epoch log_interval checkpoint_interval idx data agg w =
  (World (w_model w) (w_grads w) (w_optim w) (w_meter w)
         (w_calls w ++ map (@s_image image) data)
         (w_log w ++ map (fun i => Debug_skipping (Z.of_nat i + 1))
                         (seq idx (length data)))
         (w_scalars w) (w_ckpts w),
   Ok agg).
Proof.
  intros HF. revert idx w HF.
  induction data as [|s rest IH]; intros idx w HF; cbn [train_loop].
  - simpl. rewrite !app_nil_r. now destruct w.
  - inversion HF as [|? ? Hs Hrest]; subst.
    unfold bindp.
    rewrite (@train_iteration_skip D C epoch log_interval checkpoint_interval
               idx s agg w Hs).
    rewrite IH by exact Hrest. simpl.
    now rewrite <- !app_assoc.
Qed.
End Training_skips.

(** X10.  When the builder returns [None] for every sample of the data
    loader, [train] ends normally whatever the intervals are, zero included:
    it has called the network on every sample and traced one skip per
    sample, and the model, the gradients, the optimizer, the meter, the
    summary writer and the checkpoints are what they were. *)
Theorem training_on_rejected_samples_is_idle (D : Domain) (C : Collaborators)
        (epoch : nat) (data : list (sample image))
        (log_interval checkpoint_interval : Z) (w : world) :
  Forall (fun s => create_triplet_pools s (model_call (w_model w) (s_image s))
                   = Ok None) data ->
  train epoch data log_interval checkpoint_interval w =
  (World (w_model w) (w_grads w) (w_optim w) (w_meter w)
         (w_calls w ++ map (@s_image image) data)
         (w_log w ++ map (fun i => Debug_skipping (Z.of_nat i + 1))
                         (seq 0 (length data)))
         (w_scalars w) (w_ckpts w),
   Ok tt).
Proof.
  intros HF. unfold train, bindp.
  now rewrite (@train_loop_all_skipped D C epoch log_interval checkpoint_interval
                 data 0 (fzero, fzero) w HF).
Qed.

Lemma training_on_rejected_samples_is_idle_witness :
  snd (train (C := Toy.collaborators) 0
             [Toy.empty_anchor_sample; Toy.full_pool_sample] 0 0 Toy.world0)
  = Ok tt
  /\ w_model (fst (train (C := Toy.collaborators) 0
                         [Toy.empty_anchor_sample; Toy.full_pool_sample] 0 0
                         Toy.world0))
     = w_model Toy.world0.
Proof.
  rewrite (@training_on_rejected_samples_is_idle Toy.domain Toy.collaborators 0
             [Toy.empty_anchor_sample; Toy.full_pool_sample] 0%Z 0%Z Toy.world0).
  - split; reflexivity.
  - repeat constructor.
Defined.
